(** * Distributed printing with Ricart-Agrawala mutual exclusion

    A shallow embedding of the peer node ([client/main.py]), the printer
    service ([printer/server.py]) and the logical clock
    ([common/lamport_clock.py]), with the properties of the specification
    stated against it.

    Python integers are unbounded, so every counter and timestamp is a [Z].
    An object's fields are a record; a method that mutates the object
    takes the record and returns the new one next to its result.  What a
    method writes to standard output is collected as a list of lines. *)

From Stdlib Require Import ZArith QArith Lia Lqa List Bool Ascii String.
From stdpp Require Import gmap strings pretty list.

Local Open Scope string_scope.
Local Open Scope Z_scope.

(** ** common/lamport_clock.py *)

Module LamportClock.

(** The only field of a [LamportClock] is [_time]; the private lock makes
    each method one atomic step, which is what a function is. *)
Record t : Type := mk { _time : Z }.

(** [LamportClock(initial_time=0)] *)
Definition init (initial_time : Z) : t := {| _time := initial_time |}.
Definition new : t := init 0.

(** [tick]: [self._time += 1; return self._time] *)
Definition tick (c : t) : t * Z :=
  let c' := {| _time := _time c + 1 |} in (c', _time c').

(** [send_event]: [return self.tick()] *)
Definition send_event (c : t) : t * Z := tick c.

(** [receive_event]:
    [self._time = max(self._time, received_timestamp) + 1; return self._time] *)
Definition receive_event (received_timestamp : Z) (c : t) : t * Z :=
  let c' := {| _time := Z.max (_time c) received_timestamp + 1 |} in
  (c', _time c').

(** [get_time]: [return self._time] *)
Definition get_time (c : t) : t * Z := (c, _time c).

(** [update]: [self._time = new_time; return self._time] *)
Definition update (new_time : Z) (c : t) : t * Z :=
  let c' := {| _time := new_time |} in (c', _time c').

(** The public interface as data, to speak about sequences of calls. *)
Inductive op : Type :=
| Tick
| SendEvent
| ReceiveEvent (received_timestamp : Z)
| GetTime
| Update (new_time : Z).

Definition call (o : op) (c : t) : t * Z :=
  match o with
  | Tick => tick c
  | SendEvent => send_event c
  | ReceiveEvent ts => receive_event ts c
  | GetTime => get_time c
  | Update n => update n c
  end.

(** Successive calls on one clock; the result lists what each returned. *)
Fixpoint calls (os : list op) (c : t) : t * list Z :=
  match os with
  | [] => (c, [])
  | o :: os' =>
      let '(c1, r) := call o c in
      let '(c2, rs) := calls os' c1 in
      (c2, r :: rs)
  end.

(** The operations that implement Lamport's three rules. *)
Definition advancing (o : op) : bool :=
  match o with
  | Tick | SendEvent | ReceiveEvent _ => true
  | GetTime | Update _ => false
  end.

(** The operations that never set the clock by hand. *)
Definition observing (o : op) : bool :=
  match o with
  | Update _ => false
  | _ => true
  end.

(** Strict and weak growth of a list of timestamps, as the tests check
    it: each element against its predecessor. *)
Fixpoint increasing_from (lt : Z -> Z -> Prop) (prev : Z) (l : list Z) : Prop :=
  match l with
  | [] => True
  | x :: l' => lt prev x /\ increasing_from lt x l'
  end.

Definition increasing (lt : Z -> Z -> Prop) (l : list Z) : Prop :=
  match l with
  | [] => True
  | x :: l' => increasing_from lt x l'
  end.

(** Growth along a sequence of calls: a call that advances the clock
    returns more than the call before it, any other call at least as
    much. *)
Fixpoint grows_from (prev : Z) (l : list (op * Z)) : Prop :=
  match l with
  | [] => True
  | (o, r) :: l' =>
      (if advancing o then prev < r else prev <= r) /\ grows_from r l'
  end.

End LamportClock.

(** ** common/logger.py *)

Module Logger.

(** [Logger(client_id)]: [None] is the server's logger. *)
Record t : Type := mk { client_id : option Z }.

Definition create_client_logger (id : Z) : t := {| client_id := Some id |}.
Definition create_server_logger : t := {| client_id := None |}.

(** [_format_message].  Without a Lamport timestamp the system time in
    milliseconds, [now_ms], stands in for it. *)
Definition _format_message (lg : t) (message : string)
    (lamport_timestamp : option Z) (now_ms : Z) : string :=
  let timestamp :=
    match lamport_timestamp with
    | Some ts => ts
    | None => now_ms
    end in
  match client_id lg with
  | Some id =>
      "[TS: " +:+ pretty timestamp +:+ "] CLIENTE " +:+ pretty id +:+ ": " +:+ message
  | None =>
      "[TS: " +:+ pretty timestamp +:+ "] SERVIDOR: " +:+ message
  end.

(** What reaches standard output: a bare [print(text, flush=True)], or a
    call of [Logger.log], whose text is fixed once the system time is
    read. *)
Inductive output : Type :=
| Raw (text : string)
| Logged (lg : t) (message : string) (lamport_timestamp : option Z).

Definition text (now_ms : Z) (o : output) : string :=
  match o with
  | Raw s => s
  | Logged lg message ts => _format_message lg message ts now_ms
  end.

Definition log (lg : t) (message : string) (lamport_timestamp : option Z) : output :=
  Logged lg message lamport_timestamp.

Definition info (lg : t) (message : string) (lamport_timestamp : option Z) : output :=
  log lg ("INFO: " +:+ message) lamport_timestamp.

Definition error (lg : t) (message : string) (lamport_timestamp : option Z) : output :=
  log lg ("ERROR: " +:+ message) lamport_timestamp.

Definition warning (lg : t) (message : string) (lamport_timestamp : option Z) : output :=
  log lg ("WARNING: " +:+ message) lamport_timestamp.

Definition debug (lg : t) (message : string) (lamport_timestamp : option Z) : output :=
  log lg ("DEBUG: " +:+ message) lamport_timestamp.

Definition print_request (lg : t) (message_content : string)
    (lamport_timestamp : option Z) : output :=
  Logged lg message_content lamport_timestamp.

End Logger.

(** ** The wire messages and common/message_builder.py *)

Module MessageBuilder.

(** Modelled from the spec: the generated module [printing_pb2] is not
    part of the sources; the five records below have the fields that the
    specification lists for the wire protocol and that the builders of
    [message_builder.py] pass on.  Integer fields are left unbounded. *)
Record PrintRequest : Type := mkPrintRequest {
  pr_client_id : Z;
  pr_message_content : string;
  pr_lamport_timestamp : Z;
  pr_request_number : Z
}.

Record PrintResponse : Type := mkPrintResponse {
  success : bool;
  confirmation_message : string;
  presp_lamport_timestamp : Z
}.

Record AccessRequest : Type := mkAccessRequest {
  req_client_id : Z;
  req_lamport_timestamp : Z;
  req_request_number : Z
}.

Record AccessResponse : Type := mkAccessResponse {
  access_granted : bool;
  resp_lamport_timestamp : Z
}.

Record AccessRelease : Type := mkAccessRelease {
  rel_client_id : Z;
  rel_lamport_timestamp : Z;
  rel_request_number : Z
}.

Definition build_print_request (client_id : Z) (message_content : string)
    (lamport_timestamp request_number : Z) : PrintRequest :=
  mkPrintRequest client_id message_content lamport_timestamp request_number.

Definition build_print_response (success : bool) (confirmation_message : string)
    (lamport_timestamp : Z) : PrintResponse :=
  mkPrintResponse success confirmation_message lamport_timestamp.

Definition build_access_request (client_id lamport_timestamp request_number : Z)
    : AccessRequest :=
  mkAccessRequest client_id lamport_timestamp request_number.

Definition build_access_response (access_granted : bool) (lamport_timestamp : Z)
    : AccessResponse :=
  mkAccessResponse access_granted lamport_timestamp.

Definition build_access_release (client_id lamport_timestamp request_number : Z)
    : AccessRelease :=
  mkAccessRelease client_id lamport_timestamp request_number.

End MessageBuilder.

Import MessageBuilder.

(** ** Effects

    A method changes the fields of its object and acts on the world around
    it: it prints, sleeps, starts threads, calls a peer, waits on or
    signals a condition variable, opens a port.  [M S A] is a computation
    over an object of type [S] that returns an [A] and lists those acts in
    the order they happen. *)

(** A [grpc.RpcError]; [code] is how [e.code()] prints. *)
Record RpcError : Type := mkRpcError { code : string }.

(** The targets of the [threading.Thread]s the peer starts. *)
Inductive thread : Type :=
| _send_access_request_to_peer_thread (peer_addr : string) (request : AccessRequest)
| _send_access_release_to_peer_thread (peer_addr : string) (release : AccessRelease)
| _status_reporter_thread
| _automatic_job_generator_thread.

Inductive effect : Type :=
| Out (o : Logger.output)
| Sleep (seconds : Q)
| StartThread (th : thread)
| Call_ReplyToAccessRequest (peer_addr : string) (response : AccessResponse)
| NotifyAll
| Wait (timeout : Q)
| Listen (listen_addr : string)
| ServerStart
| WaitForTermination
| ServerStop (grace : Z).

Definition M (S A : Type) : Type := S -> A * S * list effect.

#[global] Instance M_ret {S} : MRet (M S) := fun A a s => (a, s, []).

Definition result_of {S A} (r : A * S * list effect) : A := r.1.1.
Definition state_of {S A} (r : A * S * list effect) : S := r.1.2.
Definition effects_of {S A} (r : A * S * list effect) : list effect := r.2.

#[global] Instance M_bind {S} : MBind (M S) := fun A B k m s =>
  let r1 := m s in
  let r2 := k (result_of r1) (state_of r1) in
  (result_of r2, state_of r2, (effects_of r1 ++ effects_of r2)%list).

Definition get {S} : M S S := fun s => (s, s, []).
Definition modify {S} (f : S -> S) : M S unit := fun s => (tt, f s, []).
Definition emit {S} (e : effect) : M S unit := fun s => (tt, s, [e]).

(** [for x in l: body(x)] *)
Fixpoint for_each {S A} (l : list A) (body : A -> M S unit) : M S unit :=
  match l with
  | [] => mret tt
  | x :: l' => body x;; for_each l' body
  end.

(** How a Python process ends, and the exit status the interpreter gives
    it: 0 when the script runs to its end, the argument of [sys.exit], 1
    for an exception nobody caught. *)
Inductive completion : Type :=
| Returned
| Exited (status : Z)
| Uncaught.

Definition exit_code (c : completion) : Z :=
  match c with
  | Returned => 0
  | Exited status => status
  | Uncaught => 1
  end.

(** What a call gives back: its value, or the exception it raised. *)
Inductive outcome (A : Type) : Type :=
| Value (a : A)
| Raises (exception : string).
Arguments Value {A} a.
Arguments Raises {A} exception.

(** Python floats are modelled by rationals; comparisons are exact. *)
Definition Qltb (a b : Q) : bool := negb (Qle_bool b a).

(** ** printer/server.py *)

Module Printer.

Record PrintingServiceServicer : Type := mkServicer {
  logger : Logger.t;
  print_delay_min : Q;
  print_delay_max : Q;
  clock : LamportClock.t
}.

(** [__init__(print_delay_min=2.0, print_delay_max=3.0)] *)
Definition init (print_delay_min print_delay_max : Q) : PrintingServiceServicer :=
  {| logger := Logger.create_server_logger;
     print_delay_min := print_delay_min;
     print_delay_max := print_delay_max;
     clock := LamportClock.new |}.

Definition default : PrintingServiceServicer := init (2 # 1) (3 # 1).

Definition on_clock {A} (f : LamportClock.t -> LamportClock.t * A)
    : M PrintingServiceServicer A :=
  fun sv =>
    let '(c, a) := f (clock sv) in
    (a, {| logger := logger sv; print_delay_min := print_delay_min sv;
           print_delay_max := print_delay_max sv; clock := c |}, []).

(** [random.uniform(a, b)] is [a + (b - a) * random()], where [random()]
    draws [u] from the half-open interval from 0 to 1. *)
Definition uniform (a b u : Q) : Q := (a + (b - a) * u)%Q.

(** [SendToPrinter(request, context)]; [u] is the draw of the random
    generator.  [time.sleep] raises [ValueError] on a negative length. *)
Definition SendToPrinter (request : PrintRequest) (u : Q)
    : M PrintingServiceServicer (outcome PrintResponse) :=
  server_timestamp ← on_clock (LamportClock.receive_event (pr_lamport_timestamp request));
  emit (Out (Logger.Raw
    ("[TS: " +:+ pretty (pr_lamport_timestamp request) +:+ "] CLIENTE "
     +:+ pretty (pr_client_id request) +:+ ": " +:+ pr_message_content request)));;
  sv ← get;
  let delay := uniform (print_delay_min sv) (print_delay_max sv) u in
  if Qltb delay 0 then mret (Raises "ValueError")
  else
    emit (Sleep delay);;
    response_timestamp ← on_clock LamportClock.tick;
    let response :=
      build_print_response true
        ("Documento do cliente " +:+ pretty (pr_client_id request) +:+ " impresso com sucesso")
        response_timestamp in
    emit (Out (Logger.info (logger sv)
      ("Confirmação enviada para cliente " +:+ pretty (pr_client_id request))
      (Some response_timestamp)));;
    mret (Value response).

(** The command line after [parser.parse_args()]. *)
Record Args : Type := mkArgs {
  port : Z;
  delay_min : Q;
  delay_max : Q
}.

Section Serve.

(** How Python prints a float inside an f-string. *)
Variable float_str : Q -> string.

(** [serve(port, print_delay_min, print_delay_max)], from the opening
    of the port to the [KeyboardInterrupt] that ends
    [wait_for_termination] and stops the server. *)
Definition serve (port : Z) (print_delay_min print_delay_max : Q)
    : list effect :=
  let logger := Logger.create_server_logger in
  [ Listen ("[::]:" +:+ pretty port);
    ServerStart;
    Out (Logger.info logger ("Servidor de impressão iniciado na porta " +:+ pretty port) None);
    Out (Logger.info logger
      ("Delay de impressão: " +:+ float_str print_delay_min +:+ "-"
       +:+ float_str print_delay_max +:+ " segundos") None);
    WaitForTermination;
    Out (Logger.info logger "Servidor sendo encerrado..." None);
    ServerStop 5 ].

(** [main()], from the validation of the parsed arguments on. *)
Definition main (args : Args) : completion * list effect :=
  if Qltb (delay_min args) 0 || Qltb (delay_max args) 0 then
    (Returned, [Out (Logger.Raw "Erro: Delays devem ser valores positivos")])
  else if Qltb (delay_max args) (delay_min args) then
    (Returned, [Out (Logger.Raw "Erro: delay-min deve ser menor ou igual a delay-max")])
  else
    (Returned, serve (port args) (delay_min args) (delay_max args)).

End Serve.

End Printer.

(** ** Python containers used by the peer *)

(** A [dict] with integer keys: insertion-ordered, one entry per key. *)
Module Dict.

Definition t (V : Type) : Type := list (Z * V).

Definition empty {V} : t V := [].

Fixpoint get {V} (k : Z) (d : t V) : option V :=
  match d with
  | [] => None
  | (k', v) :: d' => if Z.eqb k k' then Some v else get k d'
  end.

(** [k in d] *)
Definition contains {V} (k : Z) (d : t V) : bool :=
  match get k d with
  | Some _ => true
  | None => false
  end.

(** [d[k] = v]: a key already there keeps its place. *)
Fixpoint set {V} (k : Z) (v : V) (d : t V) : t V :=
  match d with
  | [] => [(k, v)]
  | (k', v') :: d' =>
      if Z.eqb k k' then (k', v) :: d' else (k', v') :: set k v d'
  end.

Definition values {V} (d : t V) : list V := map snd d.
Definition items {V} (d : t V) : list (Z * V) := d.
Definition len {V} (d : t V) : Z := Z.of_nat (length d).

End Dict.

(** [(a1, b1) < (a2, b2)] on tuples of integers. *)
Definition tuple_lt (x y : Z * Z) : bool :=
  (x.1 <? y.1) || ((x.1 =? y.1) && (x.2 <? y.2)).

(** [sorted(l, key=key)] and [l.sort(key=key)]: Python's sort is stable,
    and so is insertion from the right, where an element goes in front of
    the first one that is not smaller. *)
Section Sorted.

Context {A : Type} (key : A -> Z * Z).

Fixpoint insert_by (x : A) (l : list A) : list A :=
  match l with
  | [] => [x]
  | y :: l' =>
      if tuple_lt (key y) (key x) then y :: insert_by x l' else x :: y :: l'
  end.

Fixpoint sorted (l : list A) : list A :=
  match l with
  | [] => []
  | x :: l' => insert_by x (sorted l')
  end.

End Sorted.

(** [sub in s] on strings. *)
Definition str_in (sub s : string) : bool :=
  match String.index 0 sub s with
  | Some _ => true
  | None => false
  end.

(** [str(b)] for a [bool]. *)
Definition bool_str (b : bool) : string := if b then "True" else "False".

(** ** client/main.py *)

Module Client.

(** [@dataclass PendingRequest] *)
Record PendingRequest : Type := mkPendingRequest {
  p_client_id : Z;
  p_lamport_timestamp : Z;
  p_request_number : Z
}.

(** The fields of a [ClientNode].  [grpc_server] tells whether the server
    object exists; [peer_stubs] keeps the keys of the stub dictionary in
    insertion order.  The lock and the two condition variables have no
    content of their own: a block under [with self.lock] is one step. *)
Record ClientNode : Type := mkClientNode {
  client_id : Z;
  port : Z;
  printer_server : string;
  peer_addresses : list string;
  job_interval_min : Q;
  job_interval_max : Q;
  job_counter : Z;
  clock : LamportClock.t;
  logger : Logger.t;
  request_number : Z;
  request_queue : list PendingRequest;
  has_access : bool;
  waiting_for_access : bool;
  deferred_replies : Dict.t AccessRequest;
  received_replies : gset string;
  outstanding_replies : gset string;
  running : bool;
  grpc_server : bool;
  peer_stubs : list string
}.

(** [self.<field> = v] *)
Definition set_clock (v : LamportClock.t) (self : ClientNode) : ClientNode :=
  {| client_id := client_id self;
     port := port self;
     printer_server := printer_server self;
     peer_addresses := peer_addresses self;
     job_interval_min := job_interval_min self;
     job_interval_max := job_interval_max self;
     job_counter := job_counter self;
     clock := v;
     logger := logger self;
     request_number := request_number self;
     request_queue := request_queue self;
     has_access := has_access self;
     waiting_for_access := waiting_for_access self;
     deferred_replies := deferred_replies self;
     received_replies := received_replies self;
     outstanding_replies := outstanding_replies self;
     running := running self;
     grpc_server := grpc_server self;
     peer_stubs := peer_stubs self |}.

Definition set_request_number (v : Z) (self : ClientNode) : ClientNode :=
  {| client_id := client_id self;
     port := port self;
     printer_server := printer_server self;
     peer_addresses := peer_addresses self;
     job_interval_min := job_interval_min self;
     job_interval_max := job_interval_max self;
     job_counter := job_counter self;
     clock := clock self;
     logger := logger self;
     request_number := v;
     request_queue := request_queue self;
     has_access := has_access self;
     waiting_for_access := waiting_for_access self;
     deferred_replies := deferred_replies self;
     received_replies := received_replies self;
     outstanding_replies := outstanding_replies self;
     running := running self;
     grpc_server := grpc_server self;
     peer_stubs := peer_stubs self |}.

Definition set_request_queue (v : list PendingRequest) (self : ClientNode) : ClientNode :=
  {| client_id := client_id self;
     port := port self;
     printer_server := printer_server self;
     peer_addresses := peer_addresses self;
     job_interval_min := job_interval_min self;
     job_interval_max := job_interval_max self;
     job_counter := job_counter self;
     clock := clock self;
     logger := logger self;
     request_number := request_number self;
     request_queue := v;
     has_access := has_access self;
     waiting_for_access := waiting_for_access self;
     deferred_replies := deferred_replies self;
     received_replies := received_replies self;
     outstanding_replies := outstanding_replies self;
     running := running self;
     grpc_server := grpc_server self;
     peer_stubs := peer_stubs self |}.

Definition set_has_access (v : bool) (self : ClientNode) : ClientNode :=
  {| client_id := client_id self;
     port := port self;
     printer_server := printer_server self;
     peer_addresses := peer_addresses self;
     job_interval_min := job_interval_min self;
     job_interval_max := job_interval_max self;
     job_counter := job_counter self;
     clock := clock self;
     logger := logger self;
     request_number := request_number self;
     request_queue := request_queue self;
     has_access := v;
     waiting_for_access := waiting_for_access self;
     deferred_replies := deferred_replies self;
     received_replies := received_replies self;
     outstanding_replies := outstanding_replies self;
     running := running self;
     grpc_server := grpc_server self;
     peer_stubs := peer_stubs self |}.

Definition set_waiting_for_access (v : bool) (self : ClientNode) : ClientNode :=
  {| client_id := client_id self;
     port := port self;
     printer_server := printer_server self;
     peer_addresses := peer_addresses self;
     job_interval_min := job_interval_min self;
     job_interval_max := job_interval_max self;
     job_counter := job_counter self;
     clock := clock self;
     logger := logger self;
     request_number := request_number self;
     request_queue := request_queue self;
     has_access := has_access self;
     waiting_for_access := v;
     deferred_replies := deferred_replies self;
     received_replies := received_replies self;
     outstanding_replies := outstanding_replies self;
     running := running self;
     grpc_server := grpc_server self;
     peer_stubs := peer_stubs self |}.

Definition set_deferred_replies (v : Dict.t AccessRequest) (self : ClientNode) : ClientNode :=
  {| client_id := client_id self;
     port := port self;
     printer_server := printer_server self;
     peer_addresses := peer_addresses self;
     job_interval_min := job_interval_min self;
     job_interval_max := job_interval_max self;
     job_counter := job_counter self;
     clock := clock self;
     logger := logger self;
     request_number := request_number self;
     request_queue := request_queue self;
     has_access := has_access self;
     waiting_for_access := waiting_for_access self;
     deferred_replies := v;
     received_replies := received_replies self;
     outstanding_replies := outstanding_replies self;
     running := running self;
     grpc_server := grpc_server self;
     peer_stubs := peer_stubs self |}.

Definition set_received_replies (v : gset string) (self : ClientNode) : ClientNode :=
  {| client_id := client_id self;
     port := port self;
     printer_server := printer_server self;
     peer_addresses := peer_addresses self;
     job_interval_min := job_interval_min self;
     job_interval_max := job_interval_max self;
     job_counter := job_counter self;
     clock := clock self;
     logger := logger self;
     request_number := request_number self;
     request_queue := request_queue self;
     has_access := has_access self;
     waiting_for_access := waiting_for_access self;
     deferred_replies := deferred_replies self;
     received_replies := v;
     outstanding_replies := outstanding_replies self;
     running := running self;
     grpc_server := grpc_server self;
     peer_stubs := peer_stubs self |}.

Definition set_outstanding_replies (v : gset string) (self : ClientNode) : ClientNode :=
  {| client_id := client_id self;
     port := port self;
     printer_server := printer_server self;
     peer_addresses := peer_addresses self;
     job_interval_min := job_interval_min self;
     job_interval_max := job_interval_max self;
     job_counter := job_counter self;
     clock := clock self;
     logger := logger self;
     request_number := request_number self;
     request_queue := request_queue self;
     has_access := has_access self;
     waiting_for_access := waiting_for_access self;
     deferred_replies := deferred_replies self;
     received_replies := received_replies self;
     outstanding_replies := v;
     running := running self;
     grpc_server := grpc_server self;
     peer_stubs := peer_stubs self |}.

Definition set_running (v : bool) (self : ClientNode) : ClientNode :=
  {| client_id := client_id self;
     port := port self;
     printer_server := printer_server self;
     peer_addresses := peer_addresses self;
     job_interval_min := job_interval_min self;
     job_interval_max := job_interval_max self;
     job_counter := job_counter self;
     clock := clock self;
     logger := logger self;
     request_number := request_number self;
     request_queue := request_queue self;
     has_access := has_access self;
     waiting_for_access := waiting_for_access self;
     deferred_replies := deferred_replies self;
     received_replies := received_replies self;
     outstanding_replies := outstanding_replies self;
     running := v;
     grpc_server := grpc_server self;
     peer_stubs := peer_stubs self |}.

Definition set_grpc_server (v : bool) (self : ClientNode) : ClientNode :=
  {| client_id := client_id self;
     port := port self;
     printer_server := printer_server self;
     peer_addresses := peer_addresses self;
     job_interval_min := job_interval_min self;
     job_interval_max := job_interval_max self;
     job_counter := job_counter self;
     clock := clock self;
     logger := logger self;
     request_number := request_number self;
     request_queue := request_queue self;
     has_access := has_access self;
     waiting_for_access := waiting_for_access self;
     deferred_replies := deferred_replies self;
     received_replies := received_replies self;
     outstanding_replies := outstanding_replies self;
     running := running self;
     grpc_server := v;
     peer_stubs := peer_stubs self |}.

Definition set_peer_stubs (v : list string) (self : ClientNode) : ClientNode :=
  {| client_id := client_id self;
     port := port self;
     printer_server := printer_server self;
     peer_addresses := peer_addresses self;
     job_interval_min := job_interval_min self;
     job_interval_max := job_interval_max self;
     job_counter := job_counter self;
     clock := clock self;
     logger := logger self;
     request_number := request_number self;
     request_queue := request_queue self;
     has_access := has_access self;
     waiting_for_access := waiting_for_access self;
     deferred_replies := deferred_replies self;
     received_replies := received_replies self;
     outstanding_replies := outstanding_replies self;
     running := running self;
     grpc_server := grpc_server self;
     peer_stubs := v |}.

(** [ClientNode(client_id, port, printer_server, peer_addresses,
    job_interval_min=5.0, job_interval_max=10.0)] *)
Definition init (client_id port : Z) (printer_server : string)
    (peer_addresses : list string) (job_interval_min job_interval_max : Q)
    : ClientNode :=
  {| client_id := client_id;
     port := port;
     printer_server := printer_server;
     peer_addresses := peer_addresses;
     job_interval_min := job_interval_min;
     job_interval_max := job_interval_max;
     job_counter := 0;
     clock := LamportClock.new;
     logger := Logger.create_client_logger client_id;
     request_number := 0;
     request_queue := [];
     has_access := false;
     waiting_for_access := false;
     deferred_replies := Dict.empty;
     received_replies := ∅;
     outstanding_replies := ∅;
     running := false;
     grpc_server := false;
     peer_stubs := [] |}.

(** A call of a method of [self.clock]. *)
Definition on_clock {A} (f : LamportClock.t -> LamportClock.t * A)
    : M ClientNode A :=
  fun self =>
    let '(c, a) := f (clock self) in
    (a, set_clock c self, []).

(** [self.logger.info(message, lamport_timestamp=ts)] and its siblings. *)
Definition log_info (message : string) (ts : option Z) : M ClientNode unit :=
  self ← get; emit (Out (Logger.info (logger self) message ts)).
Definition log_error (message : string) (ts : option Z) : M ClientNode unit :=
  self ← get; emit (Out (Logger.error (logger self) message ts)).
Definition log_warning (message : string) (ts : option Z) : M ClientNode unit :=
  self ← get; emit (Out (Logger.warning (logger self) message ts)).

(** The sort key of the request queue and of the deferred requests:
    [lambda x: (x.lamport_timestamp, x.client_id)]. *)
Definition pending_key (x : PendingRequest) : Z * Z :=
  (p_lamport_timestamp x, p_client_id x).
Definition request_key (x : AccessRequest) : Z * Z :=
  (req_lamport_timestamp x, req_client_id x).

(** [_evaluate_access_request(request)]: the first component is
    [should_defer], the second the log message. *)
Definition _evaluate_access_request (request : AccessRequest)
    : M ClientNode (bool * string) :=
  let grant_idle :=
    (false, "AccessRequest de cliente " +:+ pretty (req_client_id request)
            +:+ " CONCEDIDO (não em CS)") in
  self ← get;
  if has_access self then
    mret (true, "AccessRequest de cliente " +:+ pretty (req_client_id request)
                +:+ " DEFERIDO (em CS, TS: " +:+ pretty (req_lamport_timestamp request)
                +:+ ")")
  else if waiting_for_access self && negb (bool_decide (request_queue self = [])) then
    modify (set_request_queue (sorted pending_key (request_queue self)));;
    self ← get;
    match request_queue self with
    | our_request :: _ =>
        let our_timestamp := p_lamport_timestamp our_request in
        if req_lamport_timestamp request <? our_timestamp then
          mret (false, "AccessRequest de cliente " +:+ pretty (req_client_id request)
                       +:+ " CONCEDIDO (TS " +:+ pretty (req_lamport_timestamp request)
                       +:+ " < nosso TS " +:+ pretty our_timestamp +:+ ")")
        else if req_lamport_timestamp request >? our_timestamp then
          mret (true, "AccessRequest de cliente " +:+ pretty (req_client_id request)
                      +:+ " DEFERIDO (TS " +:+ pretty (req_lamport_timestamp request)
                      +:+ " > nosso TS " +:+ pretty our_timestamp +:+ ")")
        else if req_client_id request <? client_id self then
          mret (false, "AccessRequest de cliente " +:+ pretty (req_client_id request)
                       +:+ " CONCEDIDO (TS igual, ID " +:+ pretty (req_client_id request)
                       +:+ " < nosso ID " +:+ pretty (client_id self) +:+ ")")
        else
          mret (true, "AccessRequest de cliente " +:+ pretty (req_client_id request)
                      +:+ " DEFERIDO (TS igual, ID " +:+ pretty (req_client_id request)
                      +:+ " >= nosso ID " +:+ pretty (client_id self) +:+ ")")
    | [] =>
        (* [self.request_queue[0]] on an empty queue; sorting the
           non-empty queue never empties it (see [sorted_nil]). *)
        mret grant_idle
    end
  else
    mret grant_idle.

(** [MutualExclusionServiceServicer.RequestAccess(request, context)] *)
Definition RequestAccess (request : AccessRequest) : M ClientNode AccessResponse :=
  response_timestamp ← on_clock (LamportClock.receive_event (req_lamport_timestamp request));
  '(should_defer, log_message) ← _evaluate_access_request request;
  if (should_defer : bool) then
    self ← get;
    (if negb (Dict.contains (req_client_id request) (deferred_replies self)) then
       modify (set_deferred_replies
                 (Dict.set (req_client_id request) request (deferred_replies self)));;
       log_info log_message (Some response_timestamp)
     else mret tt);;
    ts ← on_clock LamportClock.tick;
    mret (build_access_response false ts)
  else
    now ← on_clock LamportClock.get_time;
    log_info log_message (Some now);;
    response_timestamp ← on_clock LamportClock.tick;
    mret (build_access_response true response_timestamp).

(** [MutualExclusionServiceServicer.ReleaseAccess(request, context)];
    the result stands for [Empty]. *)
Definition ReleaseAccess (request : AccessRelease) : M ClientNode unit :=
  timestamp ← on_clock (LamportClock.receive_event (rel_lamport_timestamp request));
  log_info ("AccessRelease recebido de cliente " +:+ pretty (rel_client_id request)
            +:+ " (TS: " +:+ pretty (rel_lamport_timestamp request) +:+ ")")
           (Some timestamp).

(** The first block of [request_print_access] under [self.lock]: count
    the request, stamp it, queue it, reset the reply tracking. *)
Definition request_print_access_enqueue : M ClientNode PendingRequest :=
  modify (fun self => set_request_number (request_number self + 1) self);;
  timestamp ← on_clock LamportClock.send_event;
  self ← get;
  log_info ("Solicitando acesso para impressão (requisição #"
            +:+ pretty (request_number self) +:+ ", TS: " +:+ pretty timestamp +:+ ")")
           (Some timestamp);;
  let pending :=
    {| p_client_id := client_id self;
       p_lamport_timestamp := timestamp;
       p_request_number := request_number self |} in
  modify (fun self => set_request_queue (request_queue self ++ [pending]) self);;
  modify (set_waiting_for_access true);;
  modify (set_received_replies ∅);;
  modify (fun self => set_outstanding_replies (list_to_set (peer_addresses self)) self);;
  mret pending.

(** [_broadcast_access_request(pending_request)]: one sender thread per
    peer address. *)
Definition _broadcast_access_request (pending_request : PendingRequest)
    : M ClientNode unit :=
  self ← get;
  let request :=
    build_access_request (client_id self)
      (p_lamport_timestamp pending_request) (p_request_number pending_request) in
  for_each (peer_addresses self) (fun peer_addr =>
    emit (StartThread (_send_access_request_to_peer_thread peer_addr request))).

(** The condition of the wait loop:
    [len(self.received_replies) < len(self.peer_addresses)]. *)
Definition awaiting_replies (self : ClientNode) : bool :=
  (size (received_replies self) <? length (peer_addresses self))%nat.

(** The last block of [request_print_access] under [self.lock]. *)
Definition request_print_access_enter : M ClientNode unit :=
  modify (set_has_access true);;
  modify (set_waiting_for_access false);;
  now ← on_clock LamportClock.get_time;
  log_info "Acesso concedido! Todas as respostas recebidas." (Some now).

(** What a remote call gives back: the reply, or a [grpc.RpcError]. *)
Inductive rpc_result (A : Type) : Type :=
| Ok (a : A)
| Failed (e : RpcError).
Arguments Ok {A} a.
Arguments Failed {A} e.

(** [_send_access_request_to_peer(peer_addr, request)], given what
    [stub.RequestAccess(request)] came back with.  A missing stub is a
    [KeyError], which the handler for [grpc.RpcError] does not catch. *)
Definition _send_access_request_to_peer (peer_addr : string)
    (request : AccessRequest) (outcome : rpc_result AccessResponse)
    : M ClientNode completion :=
  self ← get;
  if negb (bool_decide (peer_addr ∈ peer_stubs self)) then mret Uncaught
  else
    match outcome with
    | Ok response =>
        on_clock (LamportClock.receive_event (resp_lamport_timestamp response));;
        modify (fun self =>
          set_outstanding_replies (outstanding_replies self ∖ {[ peer_addr ]}) self);;
        modify (fun self =>
          set_received_replies ({[ peer_addr ]} ∪ received_replies self) self);;
        now ← on_clock LamportClock.get_time;
        log_info ("Resposta recebida de " +:+ peer_addr +:+ " (granted: "
                  +:+ bool_str (access_granted response) +:+ ")") (Some now);;
        emit NotifyAll;;
        mret Returned
    | Failed e =>
        now ← on_clock LamportClock.get_time;
        log_error ("Erro ao enviar AccessRequest para " +:+ peer_addr +:+ ": " +:+ code e)
                  (Some now);;
        (* Still count as received to avoid deadlock *)
        modify (fun self =>
          set_outstanding_replies (outstanding_replies self ∖ {[ peer_addr ]}) self);;
        modify (fun self =>
          set_received_replies ({[ peer_addr ]} ∪ received_replies self) self);;
        emit NotifyAll;;
        mret Returned
    end.

(** [_send_access_release_to_peer(peer_addr, release)], given what
    [stub.ReleaseAccess(release)] came back with. *)
Definition _send_access_release_to_peer (peer_addr : string)
    (release : AccessRelease) (outcome : rpc_result unit)
    : M ClientNode completion :=
  self ← get;
  if negb (bool_decide (peer_addr ∈ peer_stubs self)) then mret Uncaught
  else
    match outcome with
    | Ok _ =>
        now ← on_clock LamportClock.get_time;
        log_info ("AccessRelease enviado para " +:+ peer_addr) (Some now);;
        mret Returned
    | Failed e =>
        now ← on_clock LamportClock.get_time;
        log_error ("Erro ao enviar AccessRelease para " +:+ peer_addr +:+ ": " +:+ code e)
                  (Some now);;
        mret Returned
    end.

(** The body of the loop over the deferred replies in [release_access];
    [reply_rpc] tells whether the call of [ReplyToAccessRequest] raises. *)
Definition send_deferred_reply
    (reply_rpc : string -> AccessResponse -> option RpcError)
    (item : Z * AccessRequest) : M ClientNode unit :=
  let '(peer_id, request) := item in
  self ← get;
  let peer_addr :=
    find (fun addr => str_in ("cliente " +:+ pretty peer_id) addr) (peer_stubs self) in
  match peer_addr with
  | Some (String _ _ as peer_addr) =>
      ts ← on_clock LamportClock.tick;
      let response := build_access_response true ts in
      emit (Call_ReplyToAccessRequest peer_addr response);;
      match reply_rpc peer_addr response with
      | None =>
          now ← on_clock LamportClock.get_time;
          log_info ("Enviando resposta adiada para cliente " +:+ pretty peer_id
                    +:+ " em " +:+ peer_addr) (Some now)
      | Some e =>
          now ← on_clock LamportClock.get_time;
          log_error ("Erro ao enviar resposta adiada para cliente " +:+ pretty peer_id
                     +:+ ": " +:+ code e) (Some now)
      end
  | _ =>
      (* [if not peer_addr]: nothing found, or the empty string *)
      now ← on_clock LamportClock.get_time;
      log_error ("Não foi possível encontrar o endereço do cliente " +:+ pretty peer_id)
                (Some now)
  end.

(** [release_access()] *)
Definition release_access
    (reply_rpc : string -> AccessResponse -> option RpcError)
    : M ClientNode unit :=
  self ← get;
  if negb (has_access self) then
    now ← on_clock LamportClock.get_time;
    log_warning "Tentativa de liberar acesso sem ter acesso" (Some now)
  else
    timestamp ← on_clock LamportClock.send_event;
    log_info ("Liberando acesso e processando "
              +:+ pretty (length (deferred_replies self)) +:+ " resposta(s) deferida(s)")
             (Some timestamp);;
    let deferred_requests := Dict.values (deferred_replies self) in
    modify (set_deferred_replies Dict.empty);;
    let release_msg :=
      build_access_release (client_id self) timestamp (request_number self) in
    modify (set_has_access false);;
    modify (fun self => set_request_queue (tail (request_queue self)) self);;
    for_each (peer_addresses self) (fun peer_addr =>
      emit (StartThread (_send_access_release_to_peer_thread peer_addr release_msg)));;
    let deferred_requests := sorted request_key deferred_requests in
    self ← get;
    for_each (Dict.items (deferred_replies self)) (send_deferred_reply reply_rpc);;
    modify (set_outstanding_replies ∅).

(** While one thread sits in [request_print_access], the node's other
    threads run: the gRPC workers serving peers, the sender threads
    coming back from their calls, other job threads.  Each completed
    block of theirs is an [action] on the shared node. *)
Inductive action : Type :=
| Serve_RequestAccess (request : AccessRequest)
| Serve_ReleaseAccess (request : AccessRelease)
| Sender_returns (peer_addr : string) (request : AccessRequest)
    (outcome : rpc_result AccessResponse)
| Release_sender_returns (peer_addr : string) (release : AccessRelease)
    (outcome : rpc_result unit)
| Other_release_access (reply_rpc : string -> AccessResponse -> option RpcError)
| Other_enqueue
| Other_enter.

Definition perform (a : action) : M ClientNode unit :=
  match a with
  | Serve_RequestAccess request => RequestAccess request;; mret tt
  | Serve_ReleaseAccess request => ReleaseAccess request
  | Sender_returns peer_addr request outcome =>
      _send_access_request_to_peer peer_addr request outcome;; mret tt
  | Release_sender_returns peer_addr release outcome =>
      _send_access_release_to_peer peer_addr release outcome;; mret tt
  | Other_release_access reply_rpc => release_access reply_rpc
  | Other_enqueue =>
      pending ← request_print_access_enqueue; _broadcast_access_request pending
  | Other_enter => request_print_access_enter
  end.

(** What the other threads do while the requesting thread does not hold
    the lock: before it first tests the loop condition, during each
    [access_condition.wait(timeout=1.0)], and before its last block. *)
Record schedule : Type := mkSchedule {
  before_wait : list action;
  during_wait : list (list action);
  before_enter : list action
}.

Definition alone : schedule :=
  {| before_wait := []; during_wait := []; before_enter := [] |}.

(** The wait loop.  The result is [false] when the schedule ends with
    the thread still inside the loop. *)
Fixpoint wait_for_all_replies (during_wait : list (list action)) : M ClientNode bool :=
  self ← get;
  if awaiting_replies self then
    match during_wait with
    | [] => mret false
    | others :: rest =>
        now ← on_clock LamportClock.get_time;
        log_info ("Aguardando respostas (" +:+ pretty (size (received_replies self))
                  +:+ "/" +:+ pretty (length (peer_addresses self)) +:+ ")") (Some now);;
        emit (Wait 1);;
        for_each others perform;;
        wait_for_all_replies rest
    end
  else mret true.

(** [request_print_access()]; the result tells whether the call
    returned within the schedule. *)
Definition request_print_access (sch : schedule) : M ClientNode bool :=
  pending ← request_print_access_enqueue;
  _broadcast_access_request pending;;
  for_each (before_wait sch) perform;;
  ready ← wait_for_all_replies (during_wait sch);
  if (ready : bool) then
    for_each (before_enter sch) perform;;
    request_print_access_enter;;
    mret true
  else mret false.

(** [self.peer_stubs[peer_addr] = stub] on the keys. *)
Definition add_stub (peer_addr : string) (stubs : list string) : list string :=
  if bool_decide (peer_addr ∈ stubs) then stubs else stubs ++ [peer_addr].

(** [initialize_grpc()] *)
Definition initialize_grpc : M ClientNode unit :=
  modify (set_grpc_server true);;
  self ← get;
  emit (Listen ("[::]:" +:+ pretty (port self)));;
  for_each (peer_addresses self) (fun peer_addr =>
    modify (fun self => set_peer_stubs (add_stub peer_addr (peer_stubs self)) self));;
  log_info ("gRPC inicializado - Servidor na porta " +:+ pretty (port self)) None;;
  log_info ("Conectado ao servidor de impressão: " +:+ printer_server self) None;;
  log_info ("Conectado a " +:+ pretty (length (peer_addresses self)) +:+ " peer(s)") None.

(** [stop()] *)
Definition stop : M ClientNode unit :=
  modify (set_running false);;
  self ← get;
  if grpc_server self then emit (ServerStop 5) else mret tt.

(** [start()], ended by the [KeyboardInterrupt] that interrupts
    [wait_for_termination]. *)
Definition start : M ClientNode unit :=
  initialize_grpc;;
  emit ServerStart;;
  modify (set_running true);;
  self ← get;
  now ← on_clock LamportClock.get_time;
  log_info ("Cliente " +:+ pretty (client_id self) +:+ " iniciado na porta "
            +:+ pretty (port self)) (Some now);;
  emit (StartThread _status_reporter_thread);;
  emit (StartThread _automatic_job_generator_thread);;
  emit WaitForTermination;;
  log_info "Cliente sendo encerrado..." None;;
  stop.

(** [str.strip()] and [str.split(',')], on ASCII text. *)
Definition is_whitespace (c : ascii) : bool :=
  let n := nat_of_ascii c in
  ((9 <=? n) && (n <=? 13) || (28 <=? n) && (n <=? 32))%nat.

Fixpoint lstrip (s : string) : string :=
  match s with
  | String c s' => if is_whitespace c then lstrip s' else s
  | EmptyString => EmptyString
  end.

Definition strip (s : string) : string :=
  String.rev (lstrip (String.rev (lstrip s))).

Fixpoint split (sep : ascii) (s : string) : list string :=
  match s with
  | EmptyString => [EmptyString]
  | String c s' =>
      if Ascii.eqb c sep then EmptyString :: split sep s'
      else
        match split sep s' with
        | w :: ws => String c w :: ws
        | [] => [String c EmptyString]
        end
  end.

(** [parse_peer_addresses(peers_str)] *)
Definition parse_peer_addresses (peers_str : string) : list string :=
  if bool_decide (peers_str = "") then []
  else
    omap (fun addr => if bool_decide (strip addr = "") then None else Some (strip addr))
         (split "," peers_str).

(** The command line after [parser.parse_args()]. *)
Record Args : Type := mkArgs {
  arg_id : Z;
  arg_port : Z;
  arg_server : string;
  arg_clients : string;
  arg_job_interval_min : Q;
  arg_job_interval_max : Q
}.

(** [main()], from the validation of the parsed arguments on. *)
Definition main (args : Args) : completion * list effect :=
  if Qltb (arg_job_interval_min args) 0 || Qltb (arg_job_interval_max args) 0 then
    (Returned, [Out (Logger.Raw "Erro: Intervalos de job devem ser valores positivos")])
  else if Qltb (arg_job_interval_max args) (arg_job_interval_min args) then
    (Returned,
     [Out (Logger.Raw "Erro: job-interval-min deve ser menor ou igual a job-interval-max")])
  else
    let peer_addresses := parse_peer_addresses (arg_clients args) in
    let client :=
      init (arg_id args) (arg_port args) (arg_server args) peer_addresses
           (arg_job_interval_min args) (arg_job_interval_max args) in
    (Returned, effects_of (start client)).

(** What one call of [self.printer_stub.SendToPrinter(request, timeout=10.0)]
    comes back with: the printer's response, a [grpc.RpcError], or any other
    exception, with the name of its type and its text. *)
Inductive attempt : Type :=
| Answered (response : PrintResponse)
| RpcFailed (e : RpcError)
| Crashed (type_name message : string).

(** [error_code in (UNAVAILABLE, DEADLINE_EXCEEDED, RESOURCE_EXHAUSTED)] *)
Definition retryable (e : RpcError) : bool :=
  bool_decide (code e ∈ ["StatusCode.UNAVAILABLE"; "StatusCode.DEADLINE_EXCEEDED";
                         "StatusCode.RESOURCE_EXHAUSTED"]).

(** [error_code.name]: what follows ["StatusCode."] in the printed code. *)
Definition code_name (e : RpcError) : string :=
  String.substring 11 (String.length (code e) - 11) (code e).

(** The [while retry_count < max_retries] loop of [print_document];
    [printer n request] is what the call comes back with after [n] failed
    attempts.  Every pass that goes round again has counted one more
    retry, so [fuel] passes are enough when [fuel] is at least
    [max_retries - retry_count]. *)
Fixpoint print_document_loop (fuel : nat) (printer : nat -> PrintRequest -> attempt)
    (request : PrintRequest) (message_content : string) (max_retries retry_count : Z)
    : M ClientNode bool :=
  match fuel with
  | O => mret false
  | S fuel' =>
      if retry_count <? max_retries then
        now ← on_clock LamportClock.get_time;
        log_info ("Enviando documento para impressão: " +:+ message_content) (Some now);;
        match printer (Z.to_nat retry_count) request with
        | Answered response =>
            on_clock (LamportClock.receive_event (presp_lamport_timestamp response));;
            if success response then
              now ← on_clock LamportClock.get_time;
              log_info ("Impressão confirmada: " +:+ confirmation_message response)
                       (Some now);;
              mret true
            else
              now ← on_clock LamportClock.get_time;
              log_error "Falha na impressão - servidor retornou sucesso=False" (Some now);;
              mret false
        | RpcFailed e =>
            let retry_count := retry_count + 1 in
            on_clock LamportClock.tick;;
            if retry_count <? max_retries then
              if retryable e then
                let wait_time := Z.min (2 ^ retry_count) 10 in
                now ← on_clock LamportClock.get_time;
                log_warning ("Erro ao comunicar com servidor (" +:+ code_name e
                             +:+ "), tentando novamente em " +:+ pretty wait_time
                             +:+ "s (tentativa " +:+ pretty retry_count +:+ "/"
                             +:+ pretty max_retries +:+ ")") (Some now);;
                emit (Sleep (inject_Z wait_time));;
                print_document_loop fuel' printer request message_content
                  max_retries retry_count
              else
                now ← on_clock LamportClock.get_time;
                log_error ("Erro não recuperável ao comunicar com servidor: "
                           +:+ code_name e) (Some now);;
                mret false
            else
              now ← on_clock LamportClock.get_time;
              log_error ("Falha ao comunicar com servidor após " +:+ pretty max_retries
                         +:+ " tentativas: " +:+ code_name e) (Some now);;
              mret false
        | Crashed type_name message =>
            let retry_count := retry_count + 1 in
            on_clock LamportClock.tick;;
            now ← on_clock LamportClock.get_time;
            log_error ("Erro inesperado ao imprimir: " +:+ type_name +:+ ": " +:+ message)
                      (Some now);;
            if retry_count >=? max_retries then mret false
            else
              emit (Sleep 1);;
              print_document_loop fuel' printer request message_content
                max_retries retry_count
        end
      else mret false
  end.

(** [print_document(message_content, max_retries=3)] *)
Definition print_document (printer : nat -> PrintRequest -> attempt)
    (message_content : string) (max_retries : Z) : M ClientNode bool :=
  timestamp ← on_clock LamportClock.send_event;
  self ← get;
  let request :=
    build_print_request (client_id self) message_content timestamp (request_number self) in
  print_document_loop (Z.to_nat max_retries) printer request message_content max_retries 0.

(** [execute_print_job(message_content)], as long as nothing raises; the
    result tells whether the call returned within the schedule. *)
Definition execute_print_job (sch : schedule) (printer : nat -> PrintRequest -> attempt)
    (reply_rpc : string -> AccessResponse -> option RpcError) (message_content : string)
    : M ClientNode bool :=
  now ← on_clock LamportClock.get_time;
  log_info ("Iniciando workflow de impressão: " +:+ message_content) (Some now);;
  ready ← request_print_access sch;
  if (ready : bool) then
    self ← get;
    (if has_access self then
       success ← print_document printer message_content 3;
       now ← on_clock LamportClock.get_time;
       if (success : bool) then log_info "Job de impressão concluído com sucesso" (Some now)
       else log_error "Job de impressão falhou" (Some now)
     else
       now ← on_clock LamportClock.get_time;
       log_error "Acesso não concedido - não é possível imprimir" (Some now));;
    release_access reply_rpc;;
    mret true
  else mret false.

(** The three states of the specification, read off the two flags. *)
Inductive PeerState : Type := IDLE | WAITING | HELD.

Definition state (self : ClientNode) : PeerState :=
  if has_access self then HELD
  else if waiting_for_access self then WAITING
  else IDLE.

End Client.

(** ** The peer system

    Peers run side by side and talk through remote calls.  Each block a
    peer runs under its lock is one step of the system; a remote call is
    the handler's step at the callee followed by the caller's step on the
    reply. *)

#[global] Instance AccessRequest_eq_dec : EqDecision AccessRequest.
Proof. solve_decision. Defined.

#[global] Instance AccessRelease_eq_dec : EqDecision AccessRelease.
Proof. solve_decision. Defined.

#[global] Instance thread_eq_dec : EqDecision thread.
Proof. solve_decision. Defined.

Module System.

Import Client.

(** [nodes] maps the address a peer listens on to the peer; [requesting]
    lists the peers with a thread inside [request_print_access], past its
    first block; [threads] lists the sender threads that were started
    and have not made their call yet, each with the peer it belongs to. *)
Record world : Type := mkWorld {
  nodes : gmap string ClientNode;
  requesting : list string;
  threads : list (string * thread)
}.

Inductive event : Type :=
| Request (a : string)
| Deliver (a : string) (th : thread)
| Fail (a : string) (th : thread) (e : RpcError)
| Enter (a : string)
| Release (a : string) (reply_rpc : string -> AccessResponse -> option RpcError).

(** The threads a block has started. *)
Definition started (a : string) (effs : list effect) : list (string * thread) :=
  omap (fun e => match e with StartThread th => Some (a, th) | _ => None end) effs.

Fixpoint remove_first {A} `{EqDecision A} (x : A) (l : list A) : list A :=
  match l with
  | [] => []
  | y :: l' => if decide (x = y) then l' else y :: remove_first x l'
  end.

Definition step (w : world) (ev : event) : option world :=
  match ev with
  | Request a =>
      self ← nodes w !! a;
      let r :=
        (pending ← request_print_access_enqueue; _broadcast_access_request pending) self in
      Some {| nodes := <[a := state_of r]> (nodes w);
              requesting := a :: requesting w;
              threads := threads w ++ started a (effects_of r) |}
  | Deliver a th =>
      if bool_decide ((a, th) ∈ threads w) then
        match th with
        | _send_access_request_to_peer_thread peer_addr request =>
            target ← nodes w !! peer_addr;
            let served := RequestAccess request target in
            let nodes1 := <[peer_addr := state_of served]> (nodes w) in
            sender ← nodes1 !! a;
            let back :=
              _send_access_request_to_peer peer_addr request (Ok (result_of served)) sender in
            Some {| nodes := <[a := state_of back]> nodes1;
                    requesting := requesting w;
                    threads := remove_first (a, th) (threads w) |}
        | _send_access_release_to_peer_thread peer_addr release =>
            target ← nodes w !! peer_addr;
            let served := ReleaseAccess release target in
            let nodes1 := <[peer_addr := state_of served]> (nodes w) in
            sender ← nodes1 !! a;
            let back := _send_access_release_to_peer peer_addr release (Ok tt) sender in
            Some {| nodes := <[a := state_of back]> nodes1;
                    requesting := requesting w;
                    threads := remove_first (a, th) (threads w) |}
        | _ => None
        end
      else None
  | Fail a th e =>
      if bool_decide ((a, th) ∈ threads w) then
        sender ← nodes w !! a;
        match th with
        | _send_access_request_to_peer_thread peer_addr request =>
            let back := _send_access_request_to_peer peer_addr request (Failed e) sender in
            Some {| nodes := <[a := state_of back]> (nodes w);
                    requesting := requesting w;
                    threads := remove_first (a, th) (threads w) |}
        | _send_access_release_to_peer_thread peer_addr release =>
            let back := _send_access_release_to_peer peer_addr release (Failed e) sender in
            Some {| nodes := <[a := state_of back]> (nodes w);
                    requesting := requesting w;
                    threads := remove_first (a, th) (threads w) |}
        | _ => None
        end
      else None
  | Enter a =>
      if bool_decide (a ∈ requesting w) then
        self ← nodes w !! a;
        if awaiting_replies self then None
        else
          Some {| nodes := <[a := state_of (request_print_access_enter self)]> (nodes w);
                  requesting := remove_first a (requesting w);
                  threads := threads w |}
      else None
  | Release a reply_rpc =>
      self ← nodes w !! a;
      let r := release_access reply_rpc self in
      Some {| nodes := <[a := state_of r]> (nodes w);
              requesting := requesting w;
              threads := threads w ++ started a (effects_of r) |}
  end.

Fixpoint run (trace : list event) (w : world) : option world :=
  match trace with
  | [] => Some w
  | ev :: trace' => w' ← step w ev; run trace' w'
  end.

(** The peers that hold the resource. *)
Definition holders (w : world) : list string :=
  omap (fun kv : string * ClientNode => if has_access kv.2 then Some kv.1 else None)
       (map_to_list (nodes w)).

(** At most one peer is in state [HELD]. *)
Definition mutual_exclusion (w : world) : Prop :=
  forall a b na nb,
    nodes w !! a = Some na -> nodes w !! b = Some nb ->
    state na = HELD -> state nb = HELD -> a = b.

(** Two peers that know each other, as the integration test sets them
    up, after [initialize_grpc]. *)
Definition client1 : ClientNode :=
  state_of (initialize_grpc
    (init 1 50062 "localhost:50051" ["localhost:50063"] (100 # 1) (100 # 1))).

Definition client2 : ClientNode :=
  state_of (initialize_grpc
    (init 2 50063 "localhost:50051" ["localhost:50062"] (100 # 1) (100 # 1))).

Definition two_peers : world :=
  {| nodes := <["localhost:50062" := client1]> (<["localhost:50063" := client2]> ∅);
     requesting := [];
     threads := [] |}.

(** Peer 1 asks and enters; then peer 2 asks, peer 1 defers it, and the
    deferral comes back to peer 2 as the answer to its call. *)
Definition request_of (id ts n : Z) : AccessRequest := build_access_request id ts n.

Definition deferral_trace : list event :=
  [ Request "localhost:50062";
    Deliver "localhost:50062"
      (_send_access_request_to_peer_thread "localhost:50063" (request_of 1 1 1));
    Enter "localhost:50062";
    Request "localhost:50063";
    Deliver "localhost:50063"
      (_send_access_request_to_peer_thread "localhost:50062" (request_of 2 4 1));
    Enter "localhost:50063" ].

(** The same, with peer 2's call to peer 1 failing. *)
Definition failure_trace : list event :=
  [ Request "localhost:50062";
    Deliver "localhost:50062"
      (_send_access_request_to_peer_thread "localhost:50063" (request_of 1 1 1));
    Enter "localhost:50062";
    Request "localhost:50063";
    Fail "localhost:50063"
      (_send_access_request_to_peer_thread "localhost:50062" (request_of 2 4 1))
      {| code := "StatusCode.UNAVAILABLE" |};
    Enter "localhost:50063" ].

End System.

(** ** Vocabulary of the specification *)

Module Spec.

Import Client.

(** The two decisions of the rule table. *)
Inductive decision : Type := grant | defer.

(** The rule table of the specification, row by row: local state, own
    pending timestamp [T_own], own identifier, incoming request. *)
Definition rule_table (S : PeerState) (T_own own_id : Z) (r : AccessRequest)
    : decision :=
  match S with
  | HELD => defer
  | IDLE => grant
  | WAITING =>
      if req_lamport_timestamp r <? T_own then grant
      else if req_lamport_timestamp r >? T_own then defer
      else if req_client_id r <? own_id then grant
      else defer
  end.

(** The strict lexicographic order on (timestamp, identifier). *)
Definition lex_lt (x y : Z * Z) : Prop :=
  x.1 < y.1 \/ (x.1 = y.1 /\ x.2 < y.2).

(** The peer's own pending timestamp: that of the request at the head of
    its sorted queue. *)
Definition own_timestamp (self : ClientNode) : option Z :=
  p_lamport_timestamp <$> head (sorted pending_key (request_queue self)).

(** The lines a run of effects writes, in order. *)
Definition stdout (now_ms : Z) (effs : list effect) : list string :=
  omap (fun e => match e with Out o => Some (Logger.text now_ms o) | _ => None end) effs.

(** A line that reads as printed by client [id] at Lamport time [ts]. *)
Definition client_line (id ts : Z) (line : string) : Prop :=
  exists message,
    line = "[TS: " +:+ pretty ts +:+ "] CLIENTE " +:+ pretty id +:+ ": " +:+ message.

(** The deferred grants a run of effects sends, with their addressees. *)
Definition deferred_grants (effs : list effect) : list (string * AccessResponse) :=
  omap (fun e =>
          match e with
          | Call_ReplyToAccessRequest peer_addr response => Some (peer_addr, response)
          | _ => None
          end) effs.

(** The number of times a run of effects waits on the condition. *)
Definition waits (effs : list effect) : nat :=
  length (omap (fun e => match e with Wait timeout => Some timeout | _ => None end) effs).

(** Whether a run of effects opens a port. *)
Definition opens_port (effs : list effect) : bool :=
  existsb (fun e => match e with Listen _ => true | _ => false end) effs.

(** Arguments that fail validation: a negative bound, or the lower
    bound above the upper one. *)
Definition fails_validation (lo hi : Q) : bool :=
  Qltb lo 0 || Qltb hi 0 || Qltb hi lo.

(** A computation on the peer that keeps its configured peers and
    never waits on the condition. *)
Definition quiet {A} (m : M ClientNode A) : Prop :=
  forall self,
    peer_addresses (state_of (m self)) = peer_addresses self
    /\ waits (effects_of (m self)) = 0%nat.

(** The characters of a printed integer. *)
Definition numeric_char (c : ascii) : bool :=
  bool_decide (c = "-"%char) || (48 <=? nat_of_ascii c)%nat && (nat_of_ascii c <=? 57)%nat.

Fixpoint numeric (s : string) : bool :=
  match s with
  | EmptyString => true
  | String c s' => numeric_char c && numeric s'
  end.

End Spec.

(** ** States the properties are tried on *)

Module Examples.

Import Client.

Definition request_of (id ts n : Z) : AccessRequest := build_access_request id ts n.

(** A peer without peers, as the unit tests build it, that has asked
    for access and got it. *)
Definition solitary : ClientNode :=
  init 1 50052 "localhost:50051" [] (5 # 1) (10 # 1).

Definition holder : ClientNode :=
  state_of (request_print_access alone solitary).

(** The holder after it has deferred a request of peer 2. *)
Definition holder_deferring : ClientNode :=
  state_of (RequestAccess (request_of 2 5 1) holder).

(** A peer of two that has asked for access at timestamp 1 and waits. *)
Definition waiter : ClientNode :=
  state_of (request_print_access_enqueue
    (init 1 50062 "localhost:50051" ["localhost:50063"; "localhost:50064"]
          (5 # 1) (10 # 1))).

(** The waiter after it has deferred a request of peer 3. *)
Definition waiter_deferring : ClientNode :=
  state_of (RequestAccess (request_of 3 7 1) waiter).

Definition never_fails : string -> AccessResponse -> option RpcError :=
  fun _ _ => None.

(** Peer 1 of the two-peer system: it asks, peer 2 grants at once, it
    enters, and then it defers the request of peer 2. *)
Definition granted_by_peer2 : schedule :=
  {| before_wait :=
       [Sender_returns "localhost:50063" (request_of 1 1 1)
          (Ok (build_access_response true 3))];
     during_wait := [];
     before_enter := [] |}.

(** A printer that is unavailable once and then confirms. *)
Definition printer_back_soon (n : nat) (request : PrintRequest) : attempt :=
  match n with
  | O => RpcFailed {| code := "StatusCode.UNAVAILABLE" |}
  | _ =>
      Answered (build_print_response true "ok" (pr_lamport_timestamp request + 2))
  end.

Definition busy : ClientNode :=
  state_of (RequestAccess (request_of 2 4 1)
    (state_of (request_print_access granted_by_peer2 System.client1))).

End Examples.

(** ** Invariants and observations used further on *)

Module Inv.

Import Client.

(** A computation that leaves an observation [f] of the peer as it was. *)
Definition keeps {T A} (f : ClientNode -> T) (m : M ClientNode A) : Prop :=
  forall self, f (state_of (m self)) = f self.

(** The peer with its clock set aside: two peers with the same image
    differ in their clocks at most. *)
Definition but_clock (self : ClientNode) : ClientNode :=
  set_clock LamportClock.new self.


(** A deferred-reply table whose keys are the senders of its requests,
    each once. *)
Definition well_keyed (d : Dict.t AccessRequest) : Prop :=
  NoDup (map fst d) /\ Forall (fun kv : Z * AccessRequest => kv.1 = req_client_id kv.2) d.

(** The lengths of the sleeps and the threads started in a run of effects. *)
Definition sleeps (effs : list effect) : list Q :=
  omap (fun e => match e with Sleep seconds => Some seconds | _ => None end) effs.

Definition threads_started (effs : list effect) : list thread :=
  omap (fun e => match e with StartThread th => Some th | _ => None end) effs.

(** The output lines among the effects. *)
Definition outputs (effs : list effect) : list Logger.output :=
  omap (fun e => match e with Out o => Some o | _ => None end) effs.


(** A text that does not begin with white space. *)
Definition starts_clean (s : string) : Prop :=
  match s with
  | String c _ => is_whitespace c = false
  | EmptyString => True
  end.

End Inv.

(** * Properties *)

(** ** The logical clock *)

Section ClockProperties.

Import LamportClock.

Lemma call_advancing o c :
  advancing o = true -> _time c < (call o c).2 /\ (call o c).2 = _time (call o c).1.
Proof.
  destruct o; simpl; intros Ha; try discriminate; split; try reflexivity; lia.
Qed.

Lemma call_observing o c :
  observing o = true -> _time c <= (call o c).2 /\ (call o c).2 = _time (call o c).1.
Proof.
  destruct o; simpl; intros Ho; try discriminate; split; try reflexivity; lia.
Qed.

Lemma advancing_observing o : advancing o = true -> observing o = true.
Proof. destruct o; simpl; congruence. Qed.

Lemma calls_cons o os c :
  calls (o :: os) c =
  ((calls os (call o c).1).1, (call o c).2 :: (calls os (call o c).1).2).
Proof.
  simpl. destruct (call o c) as [c1 r]. simpl.
  destruct (calls os c1) as [c2 rs]. reflexivity.
Qed.

(** C4: whatever the clock shows and whatever timestamp arrives,
    [receive_event] sets the clock to the larger of the two plus one and
    returns it, so the result exceeds both; a clock at 3 that receives 20
    shows 21, and its next local event yields 22. *)
Theorem receive_event_merges (c : LamportClock.t) (t_in : Z) :
  let r := receive_event t_in c in
  _time r.1 = Z.max (_time c) t_in + 1
  /\ r.2 = _time r.1
  /\ _time c < r.2
  /\ t_in < r.2
  /\ (receive_event 20 (init 3)).2 = 21
  /\ (tick (receive_event 20 (init 3)).1).2 = 22.
Proof.
  simpl. repeat split; try reflexivity; lia.
Qed.

(** C5 as stated fails: [get_time] returns the value the call before it
    returned, and [update] can set the clock back. *)
Lemma clock_not_strictly_increasing :
  (calls [Tick; GetTime] new).2 = [1; 1]
  /\ ~ increasing Z.lt (calls [Tick; GetTime] new).2
  /\ (calls [Tick; Tick; Update 0] new).2 = [1; 2; 0]
  /\ ~ increasing Z.lt (calls [Tick; Tick; Update 0] new).2.
Proof.
  repeat split; try reflexivity; simpl; lia.
Qed.

(** C5, amended: over calls of [tick], [send_event], [receive_event] and
    [get_time] the returned timestamps never decrease, and each of the
    three advancing calls returns more than the call before it; so a
    sequence of advancing calls alone is strictly increasing. *)
Theorem clock_monotone_without_update (os : list op) (c : LamportClock.t) :
  forallb observing os = true ->
  grows_from (_time c) (combine os (calls os c).2)
  /\ increasing_from Z.le (_time c) (calls os c).2
  /\ (forallb advancing os = true -> increasing_from Z.lt (_time c) (calls os c).2).
Proof.
  revert c. induction os as [|o os IH]; intros c Hobs.
  - simpl. auto.
  - simpl in Hobs. apply andb_prop in Hobs as [Ho Hos].
    rewrite calls_cons. cbn [snd combine grows_from increasing_from].
    destruct (call_observing o c Ho) as [Hle Heq].
    specialize (IH (call o c).1 Hos). rewrite <- Heq in IH.
    destruct IH as (IH1 & IH2 & IH3).
    split; [split; [|exact IH1]|split; [split; [exact Hle|exact IH2]|]].
    + destruct (advancing o) eqn:Ha; [apply (call_advancing o c Ha)|exact Hle].
    + intros Hadv. apply andb_prop in Hadv as [Ha Has].
      split; [apply (call_advancing o c Ha)|exact (IH3 Has)].
Qed.

Lemma clock_monotone_without_update_witness :
  forallb observing [Tick; SendEvent; ReceiveEvent 5; GetTime; Tick; ReceiveEvent 20] = true
  /\ increasing_from Z.le 0
       (calls [Tick; SendEvent; ReceiveEvent 5; GetTime; Tick; ReceiveEvent 20] new).2.
Proof.
  split; [reflexivity|].
  apply (clock_monotone_without_update
           [Tick; SendEvent; ReceiveEvent 5; GetTime; Tick; ReceiveEvent 20] new).
  reflexivity.
Defined.

End ClockProperties.

(** ** Printed integers *)

Section Strings.

Import Spec.

Lemma pretty_N_char_numeric x : numeric_char (pretty_N_char x) = true.
Proof.
  unfold pretty_N_char. repeat case_match; reflexivity.
Qed.

Lemma pretty_N_go_numeric x s : numeric s = true -> numeric (pretty_N_go x s) = true.
Proof.
  revert s. induction (N.lt_wf_0 x) as [x _ IH]; intros s Hs.
  assert (x = 0 \/ 0 < x)%N as [->|Hx] by lia.
  - rewrite pretty_N_go_0. exact Hs.
  - rewrite pretty_N_go_step by exact Hx.
    apply IH; [apply N.div_lt; lia|].
    simpl. rewrite pretty_N_char_numeric. exact Hs.
Qed.

Lemma pretty_N_numeric (x : N) : numeric (pretty x) = true.
Proof.
  unfold pretty, pretty_N. case_decide; [reflexivity|].
  apply pretty_N_go_numeric. reflexivity.
Qed.

Lemma pretty_Z_numeric (z : Z) : numeric (pretty z) = true.
Proof.
  destruct z as [|p|p]; [reflexivity| |].
  - apply (pretty_N_numeric (N.pos p)).
  - change (numeric (String "-" (pretty (N.pos p))) = true).
    simpl. apply (pretty_N_numeric (N.pos p)).
Qed.

(** Two texts that agree up to the first closing bracket agree after it. *)
Lemma numeric_then_bracket p q r r' :
  numeric p = true -> numeric q = true ->
  p +:+ String "]" r = q +:+ String "]" r' -> r = r'.
Proof.
  revert q. induction p as [|c p IH]; intros [|d q] Hp Hq Heq; simpl in *.
  - injection Heq as Heq. exact Heq.
  - injection Heq as <- _. apply andb_prop in Hq as [Hq _].
    vm_compute in Hq. discriminate Hq.
  - injection Heq as -> _. apply andb_prop in Hp as [Hp _].
    vm_compute in Hp. discriminate Hp.
  - injection Heq as _ Heq.
    apply andb_prop in Hp as [_ Hp]. apply andb_prop in Hq as [_ Hq].
    exact (IH q Hp Hq Heq).
Qed.

(** A line of the server's logger never reads as a client's line. *)
Lemma server_line_not_client_line message ts now id' ts' :
  ~ client_line id' ts'
      (Logger._format_message Logger.create_server_logger message ts now).
Proof.
  intros [message' Heq]. unfold Logger._format_message in Heq. simpl in Heq.
  injection Heq as Heq.
  apply numeric_then_bracket in Heq; [discriminate Heq| |];
    destruct ts; apply pretty_Z_numeric.
Qed.

Lemma client_logger_client_line id message ts now :
  client_line id ts
    (Logger._format_message (Logger.create_client_logger id) message (Some ts) now).
Proof. exists message. reflexivity. Qed.

End Strings.

(** ** The printer service *)

Section PrinterProperties.

Import Printer Spec.

Lemma uniform_between (a b u : Q) :
  (a <= b)%Q -> (0 <= u)%Q -> (u < 1)%Q ->
  (a <= uniform a b u)%Q /\ (uniform a b u <= b)%Q.
Proof.
  intros Hab Hu0 Hu1. unfold uniform. split; nra.
Qed.

Lemma Qltb_false (a b : Q) : (b <= a)%Q -> Qltb a b = false.
Proof.
  intros H. unfold Qltb. rewrite negb_false_iff. apply Qle_bool_iff. exact H.
Qed.

(** C8: for every job, on a printer whose delay bounds passed the
    validation of [main], [SendToPrinter] merges the printer's clock
    with the job's timestamp, prints one line with the client's
    timestamp and identifier, which reads as the client's own line,
    sleeps for a duration between the two delay bounds, advances its
    clock, and answers with [success = true], the confirmation message
    and the timestamp after the advance; it raises nothing, and the only
    other line it writes is the server's own. *)
Theorem SendToPrinter_confirms (sv : PrintingServiceServicer) (job : PrintRequest) (u : Q) :
  logger sv = Logger.create_server_logger ->
  (0 <= print_delay_min sv)%Q ->
  (print_delay_min sv <= print_delay_max sv)%Q ->
  (0 <= u)%Q -> (u < 1)%Q ->
  let r := SendToPrinter job u sv in
  let merged := Z.max (LamportClock._time (clock sv)) (pr_lamport_timestamp job) + 1 in
  exists job_line delay confirmation,
    effects_of r = [Out (Logger.Raw job_line); Sleep delay; Out confirmation]
    /\ (forall now,
          job_line =
          Logger._format_message (Logger.create_client_logger (pr_client_id job))
            (pr_message_content job) (Some (pr_lamport_timestamp job)) now)
    /\ client_line (pr_client_id job) (pr_lamport_timestamp job) job_line
    /\ (forall now id ts, ~ client_line id ts (Logger.text now confirmation))
    /\ (print_delay_min sv <= delay)%Q /\ (delay <= print_delay_max sv)%Q
    /\ LamportClock._time (clock (state_of r)) = merged + 1
    /\ result_of r =
         Value {| success := true;
                  confirmation_message :=
                    "Documento do cliente " +:+ pretty (pr_client_id job)
                    +:+ " impresso com sucesso";
                  presp_lamport_timestamp := merged + 1 |}.
Proof.
  intros Hlg Hmin Hdelay Hu0 Hu1. destruct sv as [lg lo hi c].
  simpl in Hlg, Hmin, Hdelay. subst lg.
  destruct (uniform_between lo hi u Hdelay Hu0 Hu1) as [Hlo Hhi].
  assert (Hpos : Qltb (uniform lo hi u) 0 = false).
  { apply Qltb_false. apply (Qle_trans _ lo); assumption. }
  unfold SendToPrinter.
  lazy beta iota zeta delta
    [mbind M_bind mret M_ret get emit on_clock result_of state_of effects_of fst snd app
     logger print_delay_min print_delay_max clock
     LamportClock.receive_event LamportClock.tick LamportClock._time].
  rewrite Hpos.
  lazy beta iota zeta delta
    [mbind M_bind mret M_ret get emit on_clock result_of state_of effects_of fst snd app
     logger print_delay_min print_delay_max clock
     LamportClock.receive_event LamportClock.tick LamportClock._time].
  eexists _, _, _. split; [reflexivity|].
  split; [intros now; reflexivity|].
  split; [eexists; reflexivity|].
  split; [intros now id ts; apply server_line_not_client_line|].
  split; [exact Hlo|].
  split; [exact Hhi|].
  split; reflexivity.
Qed.

Lemma SendToPrinter_confirms_witness :
  let job := build_print_request 42 "Hello World" 100 1 in
  LamportClock._time (clock (state_of (SendToPrinter job (1 # 2) default))) = 102
  /\ exists response,
       result_of (SendToPrinter job (1 # 2) default) = Value response
       /\ success response = true.
Proof.
  destruct (SendToPrinter_confirms default (build_print_request 42 "Hello World" 100 1) (1 # 2))
    as (job_line & delay & confirmation & _ & _ & _ & _ & _ & _ & Hclock & Hresult).
  - reflexivity.
  - vm_compute. discriminate.
  - vm_compute. discriminate.
  - vm_compute. discriminate.
  - reflexivity.
  - split; [exact Hclock|]. eexists. split; [exact Hresult|reflexivity].
Defined.

End PrinterProperties.

(** ** Start-up *)

Section StartupProperties.

Import Spec.

Lemma fails_validation_branches (lo hi : Q) :
  fails_validation lo hi = false ->
  Qltb lo 0 || Qltb hi 0 = false /\ Qltb hi lo = false.
Proof.
  unfold fails_validation. intros H. apply orb_false_elim in H. exact H.
Qed.

(** [start] opens the port before anything else happens. *)
Lemma start_opens_port (self : Client.ClientNode) :
  opens_port (effects_of (Client.start self)) = true.
Proof. reflexivity. Qed.

(** C9 as stated fails: with a negative interval the peer's [main]
    prints its message and returns, and the status of a script that
    runs to its end is 0; the printer's [main] does the same. *)
Lemma rejected_arguments_exit_with_status_zero :
  let args := Client.mkArgs 1 50052 "localhost:50051" "" (-1 # 1) (10 # 1) in
  let pargs := Printer.mkArgs 50051 (3 # 1) (2 # 1) in
  fails_validation (Client.arg_job_interval_min args) (Client.arg_job_interval_max args) = true
  /\ ~ exit_code (Client.main args).1 <> 0
  /\ fails_validation (Printer.delay_min pargs) (Printer.delay_max pargs) = true
  /\ (forall float_str, ~ exit_code (Printer.main float_str pargs).1 <> 0).
Proof.
  repeat split; try reflexivity; intros; intros H; apply H; reflexivity.
Qed.

(** C9, amended: when the arguments fail validation, the peer and the
    printer print one error line and return before opening any port,
    and the exit code is 0; with valid arguments the port is opened, and
    the exit code on clean shutdown is 0 as well. *)
Theorem main_validates_before_listening :
  (forall args : Client.Args,
     let r := Client.main args in
     exit_code r.1 = 0
     /\ if fails_validation (Client.arg_job_interval_min args)
                             (Client.arg_job_interval_max args)
        then opens_port r.2 = false /\ exists text, r.2 = [Out (Logger.Raw text)]
        else opens_port r.2 = true)
  /\ (forall (float_str : Q -> string) (args : Printer.Args),
        let r := Printer.main float_str args in
        exit_code r.1 = 0
        /\ if fails_validation (Printer.delay_min args) (Printer.delay_max args)
           then opens_port r.2 = false /\ exists text, r.2 = [Out (Logger.Raw text)]
           else opens_port r.2 = true).
Proof.
  split.
  - intros args. unfold Client.main, fails_validation.
    destruct (Qltb (Client.arg_job_interval_min args) 0
              || Qltb (Client.arg_job_interval_max args) 0) eqn:Hneg; cbn [orb].
    + split; [reflexivity|]. split; [reflexivity|]. eexists; reflexivity.
    + destruct (Qltb (Client.arg_job_interval_max args)
                     (Client.arg_job_interval_min args)) eqn:Hord; cbn [fst snd].
      * split; [reflexivity|]. split; [reflexivity|]. eexists; reflexivity.
      * split; [reflexivity|]. apply start_opens_port.
  - intros float_str args. unfold Printer.main, fails_validation.
    destruct (Qltb (Printer.delay_min args) 0 || Qltb (Printer.delay_max args) 0) eqn:Hneg;
      cbn [orb].
    + split; [reflexivity|]. split; [reflexivity|]. eexists; reflexivity.
    + destruct (Qltb (Printer.delay_max args) (Printer.delay_min args)) eqn:Hord;
        cbn [fst snd].
      * split; [reflexivity|]. split; [reflexivity|]. eexists; reflexivity.
      * split; reflexivity.
Qed.

End StartupProperties.

(** ** The peer: serving requests *)

(** Unfolds the plumbing of [M] so that a computation on a record with
    known fields reduces. *)
Ltac run_m :=
  lazy beta iota zeta delta
    [
     mbind M_bind mret M_ret get modify emit result_of state_of effects_of fst snd
     negb andb orb Client.log_info Client.log_error Client.log_warning
     Client.on_clock Client.client_id Client.port Client.printer_server
     Client.peer_addresses Client.job_interval_min Client.job_interval_max
     Client.job_counter Client.clock Client.logger Client.request_number
     Client.request_queue Client.has_access Client.waiting_for_access
     Client.deferred_replies Client.received_replies Client.outstanding_replies
     Client.running Client.grpc_server Client.peer_stubs Client.set_clock
     Client.set_request_number Client.set_request_queue Client.set_has_access
     Client.set_waiting_for_access Client.set_deferred_replies
     Client.set_received_replies Client.set_outstanding_replies Client.set_running
     Client.set_grpc_server Client.set_peer_stubs LamportClock.tick
     LamportClock.send_event LamportClock.receive_event LamportClock.get_time
     
    ] in *;
  cbn [LamportClock._time app] in *.

Section RequestProperties.

Import Client Spec Examples.

Lemma insert_by_not_nil {A} (key : A -> Z * Z) x l : insert_by key x l <> [].
Proof. destruct l as [|y l]; simpl; [|destruct (tuple_lt _ _)]; discriminate. Qed.


Lemma dict_set_fresh {V} k (v : V) d :
  Dict.get k d = None -> Dict.set k v d = (d ++ [(k, v)])%list.
Proof.
  induction d as [|[k' v'] d IH]; simpl; [reflexivity|].
  destruct (k =? k'); [discriminate|]. intros H. rewrite (IH H). reflexivity.
Qed.

Lemma dict_get_set {V} k (v : V) d : Dict.get k (Dict.set k v d) = Some v.
Proof.
  induction d as [|[k' v'] d IH]; simpl.
  - rewrite Z.eqb_refl. reflexivity.
  - destruct (k =? k') eqn:E; simpl; rewrite E; [reflexivity|exact IH].
Qed.

(** What [_evaluate_access_request] decides, and what it leaves alone. *)
Lemma evaluate_access_request_decides (self : ClientNode) (r : AccessRequest) :
  let out := _evaluate_access_request r self in
  (result_of out).1 =
    match state self, own_timestamp self with
    | HELD, _ => true
    | IDLE, _ => false
    | WAITING, None => false
    | WAITING, Some T_own =>
        match rule_table WAITING T_own (client_id self) r with
        | defer => true
        | grant => false
        end
    end
  /\ deferred_replies (state_of out) = deferred_replies self
  /\ clock (state_of out) = clock self
  /\ logger (state_of out) = logger self
  /\ effects_of out = [].
Proof.
  destruct self as [id po ps pa jmin jmax jc ck lg rn rq ha wa dr rr orr ru gs st].
  unfold state, own_timestamp, _evaluate_access_request. run_m.
  destruct ha; [cbn; auto|].
  destruct wa; [|cbn; auto].
  destruct rq as [|p rq]; [cbn; auto|].
  cbn. destruct (insert_by pending_key p (sorted pending_key rq)) as [|our rest] eqn:E.
  { destruct (insert_by_not_nil _ _ _ E). }
  cbn.
  destruct (req_lamport_timestamp r <? p_lamport_timestamp our); [cbn; auto|].
  destruct (req_lamport_timestamp r >? p_lamport_timestamp our); [cbn; auto|].
  destruct (req_client_id r <? id); cbn; auto.
Qed.

(** [RequestAccess] in terms of the decision: the reply, the table, the
    clock. *)
Lemma RequestAccess_outcome (self : ClientNode) (r : AccessRequest) :
  let out := RequestAccess r self in
  let should_defer := (result_of (_evaluate_access_request r self)).1 in
  access_granted (result_of out) = negb should_defer
  /\ deferred_replies (state_of out) =
       (if should_defer && negb (Dict.contains (req_client_id r) (deferred_replies self))
        then Dict.set (req_client_id r) r (deferred_replies self)
        else deferred_replies self)
  /\ LamportClock._time (clock (state_of out)) =
       Z.max (LamportClock._time (clock self)) (req_lamport_timestamp r) + 2
  /\ resp_lamport_timestamp (result_of out) = LamportClock._time (clock (state_of out)).
Proof.
  destruct self as [id po ps pa jmin jmax jc ck lg rn rq ha wa dr rr orr ru gs st].
  unfold RequestAccess, _evaluate_access_request. run_m.
  destruct ha.
  { cbn. destruct (Dict.contains (req_client_id r) dr); cbn; repeat split; lia. }
  destruct wa; [|cbn; repeat split; lia].
  destruct rq as [|p rq]; [cbn; repeat split; lia|].
  cbn. destruct (insert_by pending_key p (sorted pending_key rq)) as [|our rest] eqn:E.
  { destruct (insert_by_not_nil _ _ _ E). }
  cbn.
  destruct (req_lamport_timestamp r <? p_lamport_timestamp our); [cbn; repeat split; lia|].
  destruct (req_lamport_timestamp r >? p_lamport_timestamp our).
  { cbn. destruct (Dict.contains (req_client_id r) dr); cbn; repeat split; lia. }
  destruct (req_client_id r <? id); [cbn; repeat split; lia|].
  cbn. destruct (Dict.contains (req_client_id r) dr); cbn; repeat split; lia.
Qed.

Lemma rule_table_waiting_lex (T_own own_id : Z) (r : AccessRequest) :
  rule_table WAITING T_own own_id r = grant <->
  lex_lt (req_lamport_timestamp r, req_client_id r) (T_own, own_id).
Proof.
  unfold rule_table, lex_lt. simpl.
  destruct (req_lamport_timestamp r <? T_own) eqn:E1; [split; [lia|reflexivity]|].
  destruct (req_lamport_timestamp r >? T_own) eqn:E2; [split; [discriminate|lia]|].
  destruct (req_client_id r <? own_id) eqn:E3; split; try discriminate; try reflexivity; lia.
Qed.

(** C2 as stated fails in its last clause: a request that is deferred
    while the table already holds one of the same peer is not recorded. *)
Lemma repeated_request_not_recorded :
  let r := request_of 2 20 2 in
  let out := RequestAccess r holder_deferring in
  state holder_deferring = HELD
  /\ access_granted (result_of out) = false
  /\ Dict.get (req_client_id r) (deferred_replies (state_of out)) = Some (request_of 2 5 1)
  /\ ~ In r (Dict.values (deferred_replies (state_of out))).
Proof.
  vm_compute. repeat split; try reflexivity. intros [H|[]]. discriminate H.
Qed.

(** C2, amended: the decision of [RequestAccess] is the one of the rule
    table (defer when held, grant when idle, and when waiting grant
    exactly if the request precedes the own one in the order on
    timestamp and identifier); the reply carries [access_granted = false]
    exactly when the decision is to defer; and then the table holds an
    entry under the peer's identifier, the request itself if there was
    none, otherwise the one that was there.  A grant leaves the table as
    it is. *)
Theorem RequestAccess_follows_rule_table (self : ClientNode) (r : AccessRequest) (T_own : Z) :
  (state self = WAITING -> own_timestamp self = Some T_own) ->
  let out := RequestAccess r self in
  let d := rule_table (state self) T_own (client_id self) r in
  (access_granted (result_of out) = false <-> d = defer)
  /\ (state self = WAITING ->
      (d = grant <->
       lex_lt (req_lamport_timestamp r, req_client_id r) (T_own, client_id self)))
  /\ (d = defer ->
      Dict.get (req_client_id r) (deferred_replies (state_of out)) =
      Some (default r (Dict.get (req_client_id r) (deferred_replies self))))
  /\ (d = grant -> deferred_replies (state_of out) = deferred_replies self).
Proof.
  intros Hown out d.
  destruct (RequestAccess_outcome self r) as (Hgrant & Htable & _).
  destruct (evaluate_access_request_decides self r) as (Hdec & _).
  fold out in Hgrant, Htable.
  assert (Hd : (result_of (_evaluate_access_request r self)).1 =
               match d with defer => true | grant => false end).
  { rewrite Hdec. subst d. destruct (state self) eqn:Hs; [reflexivity| |reflexivity].
    rewrite (Hown eq_refl). reflexivity. }
  rewrite Hd in Hgrant, Htable. clear Hdec Hd.
  split; [|split; [|split]].
  - rewrite Hgrant. destruct d; simpl; split; congruence.
  - intros Hs. subst d. rewrite Hs. apply rule_table_waiting_lex.
  - intros Hdefer. rewrite Hdefer in Htable. rewrite Htable. unfold Dict.contains.
    destruct (Dict.get (req_client_id r) (deferred_replies self)) as [old|] eqn:Hget; simpl.
    + exact Hget.
    + apply dict_get_set.
  - intros Hg. rewrite Hg in Htable. exact Htable.
Qed.

Lemma RequestAccess_follows_rule_table_witness :
  let r := request_of 2 1 1 in
  (state waiter = WAITING -> own_timestamp waiter = Some 1)
  /\ access_granted (result_of (RequestAccess r waiter)) = false.
Proof.
  assert (H : state waiter = WAITING -> own_timestamp waiter = Some 1).
  { intros _. reflexivity. }
  split; [exact H|].
  apply (RequestAccess_follows_rule_table waiter (request_of 2 1 1) 1 H).
  reflexivity.
Defined.

(** C6 as stated fails: the waiter has deferred a request of peer 3;
    a later request of peer 3 is deferred too, and the entry after
    handling is still the earlier request. *)
Lemma later_request_does_not_supersede :
  let earlier := request_of 3 7 1 in
  let later := request_of 3 9 2 in
  let out := RequestAccess later waiter_deferring in
  Dict.get 3 (deferred_replies waiter_deferring) = Some earlier
  /\ access_granted (result_of out) = false
  /\ Dict.get 3 (deferred_replies (state_of out)) = Some earlier
  /\ Dict.get 3 (deferred_replies (state_of out)) <> Some later.
Proof.
  vm_compute. repeat split; try reflexivity. discriminate.
Qed.

(** C6, amended: the table is keyed by the peer's identifier, and a
    request that arrives while one of the same peer is deferred leaves
    the table as it is: the entry after handling is the earlier request.
    Without an earlier entry, a deferred request is added at the end
    under its peer's identifier and a granted one is not recorded. *)
Theorem deferred_entry_is_kept (self : ClientNode) (r : AccessRequest) :
  let out := RequestAccess r self in
  match Dict.get (req_client_id r) (deferred_replies self) with
  | Some earlier =>
      deferred_replies (state_of out) = deferred_replies self
      /\ Dict.get (req_client_id r) (deferred_replies (state_of out)) = Some earlier
  | None =>
      if access_granted (result_of out)
      then deferred_replies (state_of out) = deferred_replies self
      else deferred_replies (state_of out) =
             (deferred_replies self ++ [(req_client_id r, r)])%list
           /\ Dict.get (req_client_id r) (deferred_replies (state_of out)) = Some r
  end.
Proof.
  intros out.
  destruct (RequestAccess_outcome self r) as (Hgrant & Htable & _).
  fold out in Hgrant, Htable. unfold Dict.contains in Htable.
  destruct (Dict.get (req_client_id r) (deferred_replies self)) as [earlier|] eqn:Hget.
  - rewrite andb_false_r in Htable. rewrite Htable. auto.
  - rewrite Hgrant.
    destruct ((result_of (_evaluate_access_request r self)).1); simpl in *.
    + rewrite Htable. split; [apply dict_set_fresh; exact Hget|apply dict_get_set].
    + exact Htable.
Qed.

End RequestProperties.

(** ** The peer: asking for access and releasing it *)

Create HintDb quiet.

Section AccessProperties.

Import Client Spec Examples.

(** C7 as stated fails: [request_print_access] does not look at the
    state.  Called on a peer that holds the resource, or on one that
    waits, it counts and queues a new request and logs no warning. *)
Lemma request_while_busy_is_not_refused :
  let out := request_print_access_enqueue holder in
  let out' := request_print_access_enqueue waiter in
  state holder = HELD
  /\ request_number holder = 1 /\ request_number (state_of out) = 2
  /\ length (request_queue holder) = 1%nat /\ length (request_queue (state_of out)) = 2%nat
  /\ state_of out <> holder
  /\ stdout 0 (effects_of out) =
       ["[TS: 2] CLIENTE 1: INFO: Solicitando acesso para impressão (requisição #2, TS: 2)"]
  /\ state waiter = WAITING
  /\ request_number waiter = 1 /\ request_number (state_of out') = 2
  /\ stdout 0 (effects_of out') =
       ["[TS: 2] CLIENTE 1: INFO: Solicitando acesso para impressão (requisição #2, TS: 2)"].
Proof.
  vm_compute. repeat split; try reflexivity. discriminate.
Qed.

(** C7, amended: initiation checks no state.  From any state it
    increments the request counter, takes its timestamp from
    [send_event], builds the pending record and appends it to the
    queue, sets the outstanding replies to the configured peers, clears
    the received ones and raises the waiting flag, logging one
    information line; an idle peer thereby becomes a waiting one, and a
    peer that holds the resource keeps holding it. *)
Theorem request_print_access_enqueue_spec (self : ClientNode) :
  let out := request_print_access_enqueue self in
  let T := LamportClock._time (clock self) + 1 in
  let pending :=
    {| p_client_id := client_id self;
       p_lamport_timestamp := T;
       p_request_number := request_number self + 1 |} in
  result_of out = pending
  /\ state_of out =
       set_outstanding_replies (list_to_set (peer_addresses self))
         (set_received_replies ∅
            (set_waiting_for_access true
               (set_request_queue (request_queue self ++ [pending])
                  (set_clock {| LamportClock._time := T |}
                     (set_request_number (request_number self + 1) self)))))
  /\ effects_of out =
       [Out (Logger.info (logger self)
               ("Solicitando acesso para impressão (requisição #"
                +:+ pretty (request_number self + 1) +:+ ", TS: " +:+ pretty T +:+ ")")
               (Some T))]
  /\ state (state_of out) = (if has_access self then HELD else WAITING).
Proof.
  destruct self as [id po ps pa jmin jmax jc ck lg rn rq ha wa dr rr orr ru gs st].
  unfold request_print_access_enqueue, state. run_m.
  repeat split; destruct ha; reflexivity.
Qed.

(** *** Plumbing *)

Lemma bind_result {S A B} (m : M S A) (k : A -> M S B) s :
  result_of ((m ≫= k) s) = result_of (k (result_of (m s)) (state_of (m s))).
Proof. reflexivity. Qed.

Lemma bind_state {S A B} (m : M S A) (k : A -> M S B) s :
  state_of ((m ≫= k) s) = state_of (k (result_of (m s)) (state_of (m s))).
Proof. reflexivity. Qed.

Lemma bind_effects {S A B} (m : M S A) (k : A -> M S B) s :
  effects_of ((m ≫= k) s) =
  (effects_of (m s) ++ effects_of (k (result_of (m s)) (state_of (m s))))%list.
Proof. reflexivity. Qed.

Lemma for_each_emit {S A} (f : A -> effect) (l : list A) (s : S) :
  for_each l (fun x => emit (f x)) s = (tt, s, map f l).
Proof.
  induction l as [|x l IH]; [reflexivity|].
  cbn [for_each]. unfold mbind, M_bind.
  change (state_of (emit (f x) s)) with s. rewrite IH. reflexivity.
Qed.

Lemma for_each_emit_unfolded {S A} (f : A -> effect) (l : list A) (s : S) :
  for_each l (fun x (s' : S) => (tt, s', [f x])) s = (tt, s, map f l).
Proof. exact (for_each_emit f l s). Qed.

Lemma waits_app (l1 l2 : list effect) : waits (l1 ++ l2) = (waits l1 + waits l2)%nat.
Proof. unfold waits. rewrite omap_app, length_app. reflexivity. Qed.

Lemma deferred_grants_app (l1 l2 : list effect) :
  deferred_grants (l1 ++ l2) = (deferred_grants l1 ++ deferred_grants l2)%list.
Proof. unfold deferred_grants. apply omap_app. Qed.

Lemma deferred_grants_threads {A} (f : A -> thread) (l : list A) :
  deferred_grants (map (fun x => StartThread (f x)) l) = [].
Proof. induction l as [|x l IH]; [reflexivity|exact IH]. Qed.

(** *** Release *)

(** C3: the claim holds for no deferred request.  [release_access]
    takes its snapshot of the table, empties the table, and then loops
    over the table, not over the snapshot: it never calls
    [ReplyToAccessRequest].  Peer 1, holding the resource with the
    request of peer 2 deferred, ends idle with an empty table and has
    sent peer 2 nothing but the release message. *)
Theorem release_access_sends_no_deferred_grant :
  (forall reply_rpc self,
     deferred_grants (effects_of (release_access reply_rpc self)) = [])
  /\ state busy = HELD
  /\ deferred_replies busy = [(2, request_of 2 4 1)]
  /\ (forall reply_rpc,
        let out := release_access reply_rpc busy in
        state (state_of out) = IDLE
        /\ deferred_replies (state_of out) = []
        /\ omap (fun e => match e with StartThread th => Some th | _ => None end)
                (effects_of out) =
           [_send_access_release_to_peer_thread "localhost:50063"
              (build_access_release 1 7 1)]).
Proof.
  split; [|vm_compute; repeat split; reflexivity].
  intros reply_rpc self.
  destruct self as [id po ps pa jmin jmax jc ck lg rn rq ha wa dr rr orr ru gs st].
  unfold release_access. destruct ha.
  - run_m. rewrite !for_each_emit_unfolded. run_m.
    unfold Dict.items, Dict.empty. cbn [for_each]. run_m.
    rewrite app_nil_r. apply (deferred_grants_threads _ pa).
  - run_m. reflexivity.
Qed.

(** *** Nothing but the wait loop waits, and nothing changes the peers *)

Lemma quiet_ret {A} (a : A) : quiet (mret a).
Proof. intros self. split; reflexivity. Qed.

Lemma quiet_bind {A B} (m : M ClientNode A) (k : A -> M ClientNode B) :
  quiet m -> (forall a, quiet (k a)) -> quiet (m ≫= k).
Proof.
  intros Hm Hk self. rewrite bind_state, bind_effects, waits_app.
  destruct (Hm self) as [Hp Hw].
  destruct (Hk (result_of (m self)) (state_of (m self))) as [Hp' Hw'].
  rewrite Hp', Hp, Hw, Hw'. split; reflexivity.
Qed.

Lemma quiet_get : quiet get.
Proof. intros self. split; reflexivity. Qed.

Lemma quiet_modify (f : ClientNode -> ClientNode) :
  (forall self, peer_addresses (f self) = peer_addresses self) -> quiet (modify f).
Proof. intros Hf self. split; [apply Hf|reflexivity]. Qed.

Lemma quiet_emit (e : effect) :
  match e with Wait _ => False | _ => True end -> quiet (emit e).
Proof. intros He self. split; [reflexivity|]. destruct e; try reflexivity. destruct He. Qed.

Lemma quiet_on_clock {A} (f : LamportClock.t -> LamportClock.t * A) : quiet (on_clock f).
Proof.
  intros self. unfold on_clock. destruct (f (clock self)) as [c a]. split; reflexivity.
Qed.

Lemma quiet_for_each {A} (l : list A) (body : A -> M ClientNode unit) :
  (forall x, quiet (body x)) -> quiet (for_each l body).
Proof.
  intros Hbody. induction l as [|x l IH]; [apply quiet_ret|].
  cbn [for_each]. apply quiet_bind; [apply Hbody|intros _; exact IH].
Qed.

Ltac quiet_step :=
  lazymatch goal with
  | |- quiet (_ ≫= _) => apply quiet_bind; [|intros ?]
  | |- quiet (mret _) => apply quiet_ret
  | |- quiet get => apply quiet_get
  | |- quiet (emit _) => apply quiet_emit; exact I
  | |- quiet (modify _) => apply quiet_modify; intros []; reflexivity
  | |- quiet (on_clock _) => apply quiet_on_clock
  | |- quiet (for_each _ _) => apply quiet_for_each; intros ?
  | |- quiet (if ?b then _ else _) => destruct b
  | |- quiet (match ?x with _ => _ end) => destruct x
  end.

Ltac quiet_all := repeat quiet_step.

Lemma quiet_log_info message ts : quiet (log_info message ts).
Proof. unfold log_info. quiet_all. Qed.

Lemma quiet_log_error message ts : quiet (log_error message ts).
Proof. unfold log_error. quiet_all. Qed.

Lemma quiet_log_warning message ts : quiet (log_warning message ts).
Proof. unfold log_warning. quiet_all. Qed.

#[local] Hint Resolve quiet_log_info quiet_log_error quiet_log_warning : quiet.

Ltac quiet_solve := repeat first [quiet_step | solve [auto with quiet]].

Lemma quiet_evaluate r : quiet (_evaluate_access_request r).
Proof. unfold _evaluate_access_request. quiet_solve. Qed.

Lemma quiet_RequestAccess r : quiet (RequestAccess r).
Proof. unfold RequestAccess. pose proof quiet_evaluate. quiet_solve. Qed.

Lemma quiet_ReleaseAccess r : quiet (ReleaseAccess r).
Proof. unfold ReleaseAccess. quiet_solve. Qed.

Lemma quiet_send_access_request peer_addr request outcome :
  quiet (_send_access_request_to_peer peer_addr request outcome).
Proof. unfold _send_access_request_to_peer. quiet_solve. Qed.

Lemma quiet_send_access_release peer_addr release outcome :
  quiet (_send_access_release_to_peer peer_addr release outcome).
Proof. unfold _send_access_release_to_peer. quiet_solve. Qed.

Lemma quiet_send_deferred_reply reply_rpc item : quiet (send_deferred_reply reply_rpc item).
Proof. unfold send_deferred_reply. destruct item. quiet_solve. Qed.

Lemma quiet_release_access reply_rpc : quiet (release_access reply_rpc).
Proof.
  unfold release_access. pose proof (quiet_send_deferred_reply reply_rpc). quiet_solve.
Qed.

Lemma quiet_enqueue : quiet request_print_access_enqueue.
Proof. unfold request_print_access_enqueue. quiet_solve. Qed.

Lemma quiet_broadcast pending : quiet (_broadcast_access_request pending).
Proof. unfold _broadcast_access_request. quiet_solve. Qed.

Lemma quiet_enter : quiet request_print_access_enter.
Proof. unfold request_print_access_enter. quiet_solve. Qed.

Lemma quiet_perform a : quiet (perform a).
Proof.
  pose proof quiet_RequestAccess. pose proof quiet_ReleaseAccess.
  pose proof quiet_send_access_request. pose proof quiet_send_access_release.
  pose proof quiet_release_access. pose proof quiet_enqueue.
  pose proof quiet_broadcast. pose proof quiet_enter.
  destruct a; cbn [perform]; quiet_solve.
Qed.

(** *** A peer without peers *)

Lemma wait_over (during_wait : list (list action)) (self : ClientNode) :
  awaiting_replies self = false ->
  wait_for_all_replies during_wait self = (true, self, []).
Proof.
  intros H. destruct during_wait; cbn [wait_for_all_replies];
    lazy beta iota zeta delta [mbind M_bind get result_of state_of effects_of fst snd];
    rewrite H; reflexivity.
Qed.

Lemma no_peers_no_waiting (self : ClientNode) :
  peer_addresses self = [] -> awaiting_replies self = false.
Proof. unfold awaiting_replies. intros ->. apply Nat.ltb_ge. simpl. lia. Qed.

Lemma broadcast_no_peers (pending : PendingRequest) (self : ClientNode) :
  peer_addresses self = [] ->
  effects_of (_broadcast_access_request pending self) = [].
Proof.
  intros H. unfold _broadcast_access_request, mbind, M_bind, get. cbv beta zeta.
  cbn [result_of state_of effects_of fst snd app]. rewrite H. reflexivity.
Qed.

Lemma enter_flags (self : ClientNode) :
  has_access (state_of (request_print_access_enter self)) = true
  /\ waiting_for_access (state_of (request_print_access_enter self)) = false.
Proof. destruct self. split; reflexivity. Qed.

(** C10: a peer built with an empty list of peers goes through
    [request_print_access] without a single wait on the condition, the
    loop condition being false when it is first tested, whatever the
    node's other threads do in between; the call returns and leaves
    [has_access = true] and [waiting_for_access = false]. *)
Theorem solitary_peer_enters_at_once (self : ClientNode) (sch : schedule) :
  peer_addresses self = [] ->
  let out := request_print_access sch self in
  result_of out = true
  /\ has_access (state_of out) = true
  /\ waiting_for_access (state_of out) = false
  /\ waits (effects_of out) = 0%nat
  /\ awaiting_replies (state_of (request_print_access_enqueue self)) = false
  /\ effects_of (_broadcast_access_request (result_of (request_print_access_enqueue self))
                   (state_of (request_print_access_enqueue self))) = [].
Proof.
  intros Hpeers out.
  pose (r1 := request_print_access_enqueue self).
  pose (r2 := _broadcast_access_request (result_of r1) (state_of r1)).
  pose (r3 := for_each (before_wait sch) perform (state_of r2)).
  pose (W := wait_for_all_replies (during_wait sch) (state_of r3)).
  pose (r4 := for_each (before_enter sch) perform (state_of r3)).
  pose (r5 := request_print_access_enter (state_of r4)).
  assert (Hperform : forall l, quiet (for_each l perform)).
  { intros l. apply quiet_for_each, quiet_perform. }
  destruct (quiet_enqueue self) as [Hp1 Hw1]. fold r1 in Hp1, Hw1.
  destruct (quiet_broadcast (result_of r1) (state_of r1)) as [Hp2 Hw2]. fold r2 in Hp2, Hw2.
  destruct (Hperform (before_wait sch) (state_of r2)) as [Hp3 Hw3]. fold r3 in Hp3, Hw3.
  destruct (Hperform (before_enter sch) (state_of r3)) as [_ Hw4]. fold r4 in Hw4.
  destruct (quiet_enter (state_of r4)) as [_ Hw5]. fold r5 in Hw5.
  rewrite Hpeers in Hp1. rewrite Hp1 in Hp2. rewrite Hp2 in Hp3.
  assert (HW : W = (true, state_of r3, [])).
  { apply wait_over, no_peers_no_waiting, Hp3. }
  assert (Hout : out =
    (result_of ((if result_of W then
                   for_each (before_enter sch) perform;;
                   request_print_access_enter;;
                   mret true
                 else mret false) (state_of W)),
     state_of ((if result_of W then
                  for_each (before_enter sch) perform;;
                  request_print_access_enter;;
                  mret true
                else mret false) (state_of W)),
     (effects_of r1 ++ effects_of r2 ++ effects_of r3 ++ effects_of W
      ++ effects_of ((if result_of W then
                        for_each (before_enter sch) perform;;
                        request_print_access_enter;;
                        mret true
                      else mret false) (state_of W)))%list)).
  { reflexivity. }
  rewrite HW in Hout.
  change (out = (true, state_of r5,
                 (effects_of r1 ++ effects_of r2 ++ effects_of r3 ++ []
                  ++ effects_of r4 ++ effects_of r5 ++ [])%list)) in Hout.
  rewrite Hout. clear Hout.
  change (result_of (true, state_of r5,
            (effects_of r1 ++ effects_of r2 ++ effects_of r3 ++ []
             ++ effects_of r4 ++ effects_of r5 ++ [])%list)) with true.
  change (state_of (true, state_of r5,
            (effects_of r1 ++ effects_of r2 ++ effects_of r3 ++ []
             ++ effects_of r4 ++ effects_of r5 ++ [])%list)) with (state_of r5).
  change (effects_of (true, state_of r5,
            (effects_of r1 ++ effects_of r2 ++ effects_of r3 ++ []
             ++ effects_of r4 ++ effects_of r5 ++ [])%list))
    with (effects_of r1 ++ effects_of r2 ++ effects_of r3 ++ []
          ++ effects_of r4 ++ effects_of r5 ++ [])%list.
  split; [reflexivity|].
  split; [apply enter_flags|].
  split; [apply enter_flags|].
  split.
  { rewrite !waits_app, Hw1, Hw2, Hw3, Hw4, Hw5. reflexivity. }
  split.
  - apply no_peers_no_waiting. exact Hp1.
  - apply broadcast_no_peers. exact Hp1.
Qed.

Lemma solitary_peer_enters_at_once_witness :
  peer_addresses solitary = []
  /\ has_access (state_of (request_print_access alone solitary)) = true.
Proof.
  split; [reflexivity|].
  apply (solitary_peer_enters_at_once solitary alone). reflexivity.
Defined.

End AccessProperties.

(** ** The peer system *)

Section SystemProperties.

Import Client Spec System.

(** C1: mutual exclusion does not hold on the code.  In the two-peer
    system peer 1 enters; peer 2 then asks, peer 1 defers and answers
    [access_granted = false], and peer 2 counts the answer as the reply
    it waits for and enters as well.  The same happens when the call of
    peer 2 fails and the error branch counts peer 1 as having replied. *)
Theorem both_peers_hold_at_once :
  (exists w n1 n2,
     run deferral_trace two_peers = Some w
     /\ nodes w !! "localhost:50062" = Some n1
     /\ nodes w !! "localhost:50063" = Some n2
     /\ state n1 = HELD /\ state n2 = HELD
     /\ ~ mutual_exclusion w)
  /\ (exists w n1 n2,
       run failure_trace two_peers = Some w
       /\ nodes w !! "localhost:50062" = Some n1
       /\ nodes w !! "localhost:50063" = Some n2
       /\ state n1 = HELD /\ state n2 = HELD
       /\ ~ mutual_exclusion w).
Proof.
  assert (Hneq : "localhost:50062" <> "localhost:50063") by discriminate.
  assert (Hheld : forall n, has_access n = true -> state n = HELD).
  { intros n Hn. unfold state. rewrite Hn. reflexivity. }
  assert (Hboth : forall trace,
    match run trace two_peers with
    | Some w =>
        match nodes w !! "localhost:50062", nodes w !! "localhost:50063" with
        | Some n1, Some n2 => has_access n1 && has_access n2
        | _, _ => false
        end
    | None => false
    end = true ->
    exists w n1 n2,
      run trace two_peers = Some w
      /\ nodes w !! "localhost:50062" = Some n1
      /\ nodes w !! "localhost:50063" = Some n2
      /\ state n1 = HELD /\ state n2 = HELD
      /\ ~ mutual_exclusion w).
  { intros trace H.
    destruct (run trace two_peers) as [w|]; [|discriminate H].
    destruct (nodes w !! "localhost:50062") as [n1|] eqn:H1; [|discriminate H].
    destruct (nodes w !! "localhost:50063") as [n2|] eqn:H2; [|discriminate H].
    apply andb_prop in H as [Ha1 Ha2].
    exists w, n1, n2. repeat split; auto.
    intros Hmx. exact (Hneq (Hmx _ _ _ _ H1 H2 (Hheld _ Ha1) (Hheld _ Ha2))). }
  split; apply Hboth; vm_compute; reflexivity.
Qed.

End SystemProperties.

(** * Further properties of the code *)

(** ** The logical clock and the log format *)

Section MoreClockAndLogger.

Import LamportClock Spec.

Lemma calls_ticks (n : nat) (c : LamportClock.t) :
  calls (repeat Tick n) c =
  ({| _time := _time c + Z.of_nat n |},
   map (fun i => _time c + Z.of_nat i) (seq 1 n)).
Proof.
  revert c. induction n as [|n IH]; intros c.
  - destruct c as [t]. simpl. rewrite Z.add_0_r. reflexivity.
  - change (repeat Tick (S n)) with (Tick :: repeat Tick n).
    rewrite calls_cons. cbn [call tick fst snd _time]. rewrite IH. cbn [fst snd _time].
    replace (_time c + 1 + Z.of_nat n) with (_time c + Z.of_nat (S n)) by lia.
    apply (f_equal (pair _)).
    cbn [seq map]. apply f_equal2; [lia|].
    rewrite <- (seq_shift n 1), map_map. apply map_ext. intros i. lia.
Qed.

(** X1: [n] local events in a row move the clock forward by exactly [n]
    and return the [n] values that follow the starting time, in order. *)
Theorem ticks_count_events (n : nat) (c : LamportClock.t) :
  _time (calls (repeat Tick n) c).1 = _time c + Z.of_nat n
  /\ (calls (repeat Tick n) c).2 = map (fun i => _time c + Z.of_nat i) (seq 1 n)
  /\ calls (repeat SendEvent n) c = calls (repeat Tick n) c.
Proof.
  split; [|split].
  - rewrite calls_ticks. reflexivity.
  - rewrite calls_ticks. reflexivity.
  - revert c. induction n as [|n IH]; intros c; [reflexivity|].
    change (repeat SendEvent (S n)) with (SendEvent :: repeat SendEvent n).
    change (repeat Tick (S n)) with (Tick :: repeat Tick n).
    rewrite !calls_cons. change (call SendEvent c) with (call Tick c).
    rewrite IH. reflexivity.
Qed.

(** Two texts that agree up to the first character that no integer
    contains have the same integer part and the same rest. *)
Lemma numeric_split (c : ascii) p q r r' :
  numeric_char c = false ->
  numeric p = true -> numeric q = true ->
  p +:+ String c r = q +:+ String c r' -> p = q /\ r = r'.
Proof.
  intros Hc. revert q. induction p as [|a p IH]; intros [|b q] Hp Hq Heq; simpl in *.
  - injection Heq as Heq. auto.
  - injection Heq as <- _. apply andb_prop in Hq as [Hq _]. congruence.
  - injection Heq as -> _. apply andb_prop in Hp as [Hp _]. congruence.
  - injection Heq as <- Heq.
    apply andb_prop in Hp as [_ Hp]. apply andb_prop in Hq as [_ Hq].
    destruct (IH q Hp Hq Heq) as [-> ->]. auto.
Qed.

(** X2: the log format can be read back.  Two lines of client loggers are
    equal only if they carry the same timestamp, the same identifier and
    the same message; two lines of the server's logger only if timestamp
    and message agree; and a client's line is never a server's line. *)
Theorem log_line_determines_its_fields (id id' ts ts' now now' : Z) (m m' : string) :
  (Logger._format_message (Logger.create_client_logger id) m (Some ts) now =
   Logger._format_message (Logger.create_client_logger id') m' (Some ts') now' ->
   ts = ts' /\ id = id' /\ m = m')
  /\ (Logger._format_message Logger.create_server_logger m (Some ts) now =
      Logger._format_message Logger.create_server_logger m' (Some ts') now' ->
      ts = ts' /\ m = m')
  /\ Logger._format_message (Logger.create_client_logger id) m (Some ts) now <>
     Logger._format_message Logger.create_server_logger m' (Some ts') now'.
Proof.
  unfold Logger._format_message. cbn [Logger.client_id Logger.create_client_logger
    Logger.create_server_logger].
  split; [|split].
  - intros Heq. injection Heq as Heq.
    apply (numeric_split "]") in Heq; [|reflexivity|apply pretty_Z_numeric..].
    destruct Heq as [Hts Heq]. apply (inj pretty) in Hts.
    injection Heq as Heq.
    apply (numeric_split ":") in Heq; [|reflexivity|apply pretty_Z_numeric..].
    destruct Heq as [Hid Heq]. apply (inj pretty) in Hid.
    injection Heq as Heq. auto.
  - intros Heq. injection Heq as Heq.
    apply (numeric_split "]") in Heq; [|reflexivity|apply pretty_Z_numeric..].
    destruct Heq as [Hts Heq]. apply (inj pretty) in Hts.
    injection Heq as Heq. auto.
  - intros Heq. injection Heq as Heq.
    apply (numeric_split "]") in Heq; [|reflexivity|apply pretty_Z_numeric..].
    destruct Heq as [_ Heq]. discriminate Heq.
Qed.

Lemma log_line_determines_its_fields_witness :
  Logger._format_message (Logger.create_client_logger 1) "a" (Some 5) 0 =
  Logger._format_message (Logger.create_client_logger 1) "a" (Some 5) 7
  /\ (5 = 5 /\ 1 = 1 /\ "a" = "a").
Proof.
  assert (H : Logger._format_message (Logger.create_client_logger 1) "a" (Some 5) 0 =
              Logger._format_message (Logger.create_client_logger 1) "a" (Some 5) 7)
    by reflexivity.
  split; [exact H|].
  exact (proj1 (log_line_determines_its_fields 1 1 5 5 0 7 "a" "a") H).
Defined.

End MoreClockAndLogger.

(** ** What the handlers leave alone *)

Section HandlerProperties.

Import Client Spec Inv Examples.

Lemma keeps_ret {T A} (f : ClientNode -> T) (a : A) : keeps f (mret a).
Proof. intros self. reflexivity. Qed.

Lemma keeps_bind {T A B} (f : ClientNode -> T) (m : M ClientNode A) (k : A -> M ClientNode B) :
  keeps f m -> (forall a, keeps f (k a)) -> keeps f (m ≫= k).
Proof.
  intros Hm Hk self. rewrite bind_state. rewrite Hk. apply Hm.
Qed.

Lemma keeps_get {T} (f : ClientNode -> T) : keeps f get.
Proof. intros self. reflexivity. Qed.

Lemma keeps_emit {T} (f : ClientNode -> T) (e : effect) : keeps f (emit e).
Proof. intros self. reflexivity. Qed.

Lemma keeps_modify {T} (f : ClientNode -> T) (g : ClientNode -> ClientNode) :
  (forall self, f (g self) = f self) -> keeps f (modify g).
Proof. intros Hg self. apply Hg. Qed.

Lemma keeps_on_clock {T A} (f : ClientNode -> T) (g : LamportClock.t -> LamportClock.t * A) :
  (forall c self, f (set_clock c self) = f self) -> keeps f (on_clock g).
Proof.
  intros Hf self. unfold on_clock. destruct (g (clock self)) as [c a]. apply Hf.
Qed.

Lemma keeps_for_each {T A} (f : ClientNode -> T) (l : list A) (body : A -> M ClientNode unit) :
  (forall x, keeps f (body x)) -> keeps f (for_each l body).
Proof.
  intros Hbody. induction l as [|x l IH]; [apply keeps_ret|].
  cbn [for_each]. apply keeps_bind; [apply Hbody|intros _; exact IH].
Qed.

(** One step of a proof that [f] is kept: follow the structure of the
    computation; a field update or a clock call must not show in [f]. *)
Ltac keeps_step :=
  lazymatch goal with
  | |- keeps _ (_ ≫= _) => apply keeps_bind; [|intros ?]
  | |- keeps _ (mret _) => apply keeps_ret
  | |- keeps _ get => apply keeps_get
  | |- keeps _ (emit _) => apply keeps_emit
  | |- keeps _ (modify _) => apply keeps_modify; intros []; reflexivity
  | |- keeps _ (on_clock _) => apply keeps_on_clock; intros ? []; reflexivity
  | |- keeps _ (log_info _ _) => unfold log_info
  | |- keeps _ (log_error _ _) => unfold log_error
  | |- keeps _ (log_warning _ _) => unfold log_warning
  | |- keeps _ (for_each _ _) => apply keeps_for_each; intros ?
  | |- keeps _ (if ?b then _ else _) => destruct b
  | |- keeps _ (match ?x with _ => _ end) => destruct x
  end.

Ltac keeps_solve := repeat keeps_step.

(** X3: [ReleaseAccess] is a clock merge and nothing else: the node it
    leaves differs from the one it found in the clock only, which stands
    at the larger of its old value and the message's timestamp, plus one;
    it writes one line, stamped with the new time. *)
Theorem ReleaseAccess_only_merges_clock (self : ClientNode) (r : AccessRelease) :
  let out := ReleaseAccess r self in
  let merged := Z.max (LamportClock._time (clock self)) (rel_lamport_timestamp r) + 1 in
  state_of out = set_clock {| LamportClock._time := merged |} self
  /\ effects_of out =
       [Out (Logger.info (logger self)
               ("AccessRelease recebido de cliente " +:+ pretty (rel_client_id r)
                +:+ " (TS: " +:+ pretty (rel_lamport_timestamp r) +:+ ")")
               (Some merged))]
  /\ rel_lamport_timestamp r < merged.
Proof.
  destruct self as [id po ps pa jmin jmax jc ck lg rn rq ha wa dr rr orr ru gs st].
  unfold ReleaseAccess. run_m. repeat split. lia.
Qed.

(** X4: the reply of [RequestAccess], granted or not, is stamped with the
    clock as the handler leaves it, which is two past the larger of the
    old clock and the request's timestamp: past the request, past every
    earlier local event. *)
Theorem RequestAccess_reply_timestamp (self : ClientNode) (r : AccessRequest) :
  let out := RequestAccess r self in
  resp_lamport_timestamp (result_of out) =
    Z.max (LamportClock._time (clock self)) (req_lamport_timestamp r) + 2
  /\ resp_lamport_timestamp (result_of out) = LamportClock._time (clock (state_of out))
  /\ req_lamport_timestamp r < resp_lamport_timestamp (result_of out)
  /\ LamportClock._time (clock self) < resp_lamport_timestamp (result_of out).
Proof.
  intros out. destruct (RequestAccess_outcome self r) as (_ & _ & Hclock & Hts).
  fold out in Hclock, Hts. rewrite Hts, Hclock. repeat split; lia.
Qed.

Lemma keeps_evaluate {T} (f : ClientNode -> T) (r : AccessRequest) :
  (forall q self, f (set_request_queue q self) = f self) ->
  keeps f (_evaluate_access_request r).
Proof.
  intros Hq. unfold _evaluate_access_request.
  apply keeps_bind; [apply keeps_get|intros self].
  destruct (has_access self); [apply keeps_ret|].
  destruct (waiting_for_access self && negb (bool_decide (request_queue self = [])));
    [|apply keeps_ret].
  apply keeps_bind; [apply keeps_modify; intros s; apply Hq|intros _].
  keeps_solve.
Qed.

Lemma keeps_RequestAccess {T} (f : ClientNode -> T) (r : AccessRequest) :
  (forall q self, f (set_request_queue q self) = f self) ->
  (forall c self, f (set_clock c self) = f self) ->
  (forall d self, f (set_deferred_replies d self) = f self) ->
  keeps f (RequestAccess r).
Proof.
  intros Hq Hc Hd. unfold RequestAccess.
  apply keeps_bind; [apply keeps_on_clock, Hc|intros ts].
  apply keeps_bind; [apply keeps_evaluate, Hq|intros [should_defer message]].
  destruct should_defer.
  - apply keeps_bind; [apply keeps_get|intros self].
    apply keeps_bind.
    + destruct (negb (Dict.contains (req_client_id r) (deferred_replies self)));
        [|apply keeps_ret].
      apply keeps_bind; [apply keeps_modify; intros s; apply Hd|intros _].
      keeps_solve.
    + intros _. apply keeps_bind; [apply keeps_on_clock, Hc|intros ?]. apply keeps_ret.
  - apply keeps_bind; [apply keeps_on_clock, Hc|intros ?].
    apply keeps_bind; [keeps_solve|intros ?].
    apply keeps_bind; [apply keeps_on_clock, Hc|intros ?]. apply keeps_ret.
Qed.

Lemma insert_by_perm {A} (key : A -> Z * Z) x l : insert_by key x l ≡ₚ x :: l.
Proof.
  induction l as [|y l IH]; simpl; [reflexivity|].
  destruct (tuple_lt (key y) (key x)); [|reflexivity].
  rewrite IH. apply Permutation_swap.
Qed.

Lemma sorted_perm {A} (key : A -> Z * Z) l : sorted key l ≡ₚ l.
Proof.
  induction l as [|x l IH]; simpl; [reflexivity|].
  rewrite insert_by_perm, IH. reflexivity.
Qed.

Lemma RequestAccess_queue (self : ClientNode) (r : AccessRequest) :
  request_queue (state_of (RequestAccess r self)) = request_queue self
  \/ request_queue (state_of (RequestAccess r self)) = sorted pending_key (request_queue self).
Proof.
  destruct self as [id po ps pa jmin jmax jc ck lg rn rq ha wa dr rr orr ru gs st].
  unfold RequestAccess, _evaluate_access_request. run_m.
  destruct ha.
  { cbn. destruct (Dict.contains (req_client_id r) dr); cbn; auto. }
  destruct wa; [|cbn; auto].
  destruct rq as [|p rq]; [cbn; auto|].
  cbn. destruct (insert_by pending_key p (sorted pending_key rq)) as [|our rest] eqn:E.
  { destruct (insert_by_not_nil _ _ _ E). }
  cbn.
  destruct (req_lamport_timestamp r <? p_lamport_timestamp our); [cbn; auto|].
  destruct (req_lamport_timestamp r >? p_lamport_timestamp our).
  { cbn. destruct (Dict.contains (req_client_id r) dr); cbn; auto. }
  destruct (req_client_id r <? id); [cbn; auto|].
  cbn. destruct (Dict.contains (req_client_id r) dr); cbn; auto.
Qed.

(** X5: serving a peer's request never changes what the node knows about
    its own request: [has_access], [waiting_for_access], the request
    counter, both reply sets, the peers and the stubs stay as they are,
    and the request queue keeps its entries (it may come out sorted). *)
Theorem RequestAccess_keeps_own_request (self : ClientNode) (r : AccessRequest) :
  let after := state_of (RequestAccess r self) in
  has_access after = has_access self
  /\ waiting_for_access after = waiting_for_access self
  /\ request_number after = request_number self
  /\ received_replies after = received_replies self
  /\ outstanding_replies after = outstanding_replies self
  /\ peer_addresses after = peer_addresses self
  /\ peer_stubs after = peer_stubs self
  /\ state after = state self
  /\ request_queue after ≡ₚ request_queue self.
Proof.
  intros after.
  assert (Hha : has_access after = has_access self).
  { apply (keeps_RequestAccess has_access); intros ? []; reflexivity. }
  assert (Hwa : waiting_for_access after = waiting_for_access self).
  { apply (keeps_RequestAccess waiting_for_access); intros ? []; reflexivity. }
  split; [exact Hha|]. split; [exact Hwa|].
  split; [apply (keeps_RequestAccess request_number); intros ? []; reflexivity|].
  split; [apply (keeps_RequestAccess received_replies); intros ? []; reflexivity|].
  split; [apply (keeps_RequestAccess outstanding_replies); intros ? []; reflexivity|].
  split; [apply (keeps_RequestAccess peer_addresses); intros ? []; reflexivity|].
  split; [apply (keeps_RequestAccess peer_stubs); intros ? []; reflexivity|].
  split; [unfold state; rewrite Hha, Hwa; reflexivity|].
  destruct (RequestAccess_queue self r) as [H|H]; fold after in H; rewrite H;
    [reflexivity|apply sorted_perm].
Qed.

Lemma dict_get_None_fresh {V} k (d : Dict.t V) : Dict.get k d = None -> k ∉ map fst d.
Proof.
  induction d as [|[k' v] d IH]; simpl; [intros _; apply not_elem_of_nil|].
  destruct (k =? k') eqn:E; [discriminate|]. intros H.
  apply not_elem_of_cons. split; [apply Z.eqb_neq, E|exact (IH H)].
Qed.

Lemma dict_get_Some_elem {V} k (v : V) (d : Dict.t V) : Dict.get k d = Some v -> (k, v) ∈ d.
Proof.
  induction d as [|[k' v'] d IH]; simpl; [discriminate|].
  destruct (k =? k') eqn:E.
  - intros [= ->]. apply Z.eqb_eq in E as ->. apply elem_of_cons. left. reflexivity.
  - intros H. apply elem_of_cons. right. exact (IH H).
Qed.

(** X6: the deferred-reply table stays keyed by sender.  If every entry
    sits under the identifier of the peer that sent it, each peer once,
    then so it is after [RequestAccess]; looking up a peer then yields a
    request of that peer or nothing. *)
Theorem RequestAccess_keeps_table_keyed (self : ClientNode) (r : AccessRequest) :
  well_keyed (deferred_replies self) ->
  let table := deferred_replies (state_of (RequestAccess r self)) in
  well_keyed table
  /\ forall peer_id q, Dict.get peer_id table = Some q -> req_client_id q = peer_id.
Proof.
  intros Hwk table.
  assert (Hwk' : well_keyed table).
  { destruct (RequestAccess_outcome self r) as (_ & Htable & _).
    fold table in Htable. rewrite Htable. clear Htable. unfold Dict.contains.
    destruct ((result_of (_evaluate_access_request r self)).1); [|exact Hwk].
    destruct (Dict.get (req_client_id r) (deferred_replies self)) eqn:Hget; [exact Hwk|].
    simpl. rewrite (dict_set_fresh _ _ _ Hget). destruct Hwk as [Hnd Hall]. split.
    - rewrite map_app. simpl. apply NoDup_app. split; [exact Hnd|]. split.
      + intros k Hk Hin. apply list_elem_of_singleton in Hin as ->.
        exact (dict_get_None_fresh _ _ Hget Hk).
      + apply NoDup_singleton.
    - apply Forall_app. split; [exact Hall|]. apply Forall_singleton. reflexivity. }
  split; [exact Hwk'|].
  intros peer_id q Hq. apply dict_get_Some_elem in Hq.
  destruct Hwk' as [_ Hall]. rewrite Forall_forall in Hall.
  symmetry. exact (Hall _ Hq).
Qed.

Lemma RequestAccess_keeps_table_keyed_witness :
  well_keyed (deferred_replies waiter_deferring)
  /\ well_keyed (deferred_replies (state_of (RequestAccess (request_of 2 8 1) waiter_deferring))).
Proof.
  assert (H : well_keyed (deferred_replies waiter_deferring)).
  { split.
    - vm_compute. apply NoDup_singleton.
    - vm_compute. apply Forall_singleton. reflexivity. }
  split; [exact H|].
  apply (RequestAccess_keeps_table_keyed waiter_deferring (request_of 2 8 1) H).
Defined.

End HandlerProperties.

(** ** Releasing, broadcasting and counting replies *)

Section ReleaseProperties.

Import Client Spec Inv Examples.

Lemma threads_started_out (o : Logger.output) (effs : list effect) :
  threads_started (Out o :: effs) = threads_started effs.
Proof. reflexivity. Qed.

Lemma threads_started_map {A} (f : A -> thread) (l : list A) :
  threads_started (map (fun x => StartThread (f x)) l) = map f l.
Proof.
  induction l as [|x l IH]; [reflexivity|].
  change (f x :: threads_started (map (fun x => StartThread (f x)) l) = f x :: map f l).
  rewrite IH. reflexivity.
Qed.

(** X7: [release_access] on a node that does not hold the resource is
    refused: the node is left exactly as it was, no thread is started,
    and the one line written is a warning. *)
Theorem release_without_access_is_refused
    (reply_rpc : string -> AccessResponse -> option RpcError) (self : ClientNode) :
  has_access self = false ->
  let out := release_access reply_rpc self in
  state_of out = self
  /\ effects_of out =
       [Out (Logger.warning (logger self) "Tentativa de liberar acesso sem ter acesso"
               (Some (LamportClock._time (clock self))))].
Proof.
  destruct self as [id po ps pa jmin jmax jc ck lg rn rq ha wa dr rr orr ru gs st].
  cbn [has_access]. intros ->. unfold release_access. run_m.
  destruct ck as [t]. split; reflexivity.
Qed.

Lemma release_without_access_is_refused_witness :
  has_access solitary = false
  /\ state_of (release_access never_fails solitary) = solitary.
Proof.
  split; [reflexivity|].
  apply (release_without_access_is_refused never_fails solitary). reflexivity.
Defined.

Lemma release_access_holding
    (reply_rpc : string -> AccessResponse -> option RpcError) (self : ClientNode) :
  has_access self = true ->
  let out := release_access reply_rpc self in
  let T := LamportClock._time (clock self) + 1 in
  state_of out =
    set_outstanding_replies ∅
      (set_request_queue (tail (request_queue self))
         (set_has_access false
            (set_deferred_replies Dict.empty
               (set_clock {| LamportClock._time := T |} self))))
  /\ threads_started (effects_of out) =
       map (fun peer_addr =>
              _send_access_release_to_peer_thread peer_addr
                (build_access_release (client_id self) T (request_number self)))
           (peer_addresses self)
  /\ state (state_of out) = (if waiting_for_access self then WAITING else IDLE).
Proof.
  destruct self as [id po ps pa jmin jmax jc ck lg rn rq ha wa dr rr orr ru gs st].
  cbn [has_access]. intros ->. unfold release_access, state. run_m.
  rewrite !for_each_emit_unfolded. run_m.
  unfold Dict.items, Dict.empty. cbn [for_each]. run_m.
  split; [reflexivity|]. split; [|reflexivity].
  rewrite app_nil_r, threads_started_out. apply threads_started_map.
Qed.

(** X8: [release_access] on a node that holds the resource stamps the
    release with one clock tick, drops the head of the request queue,
    empties the deferred-reply table and the outstanding set, clears
    [has_access], and starts one release thread per configured peer, in
    order, all carrying the node's identifier, the new timestamp and the
    current request number; the rest of the node is untouched. *)
Theorem release_access_resets
    (reply_rpc : string -> AccessResponse -> option RpcError) (self : ClientNode) :
  has_access self = true ->
  let out := release_access reply_rpc self in
  let T := LamportClock._time (clock self) + 1 in
  state_of out =
    set_outstanding_replies ∅
      (set_request_queue (tail (request_queue self))
         (set_has_access false
            (set_deferred_replies Dict.empty
               (set_clock {| LamportClock._time := T |} self))))
  /\ threads_started (effects_of out) =
       map (fun peer_addr =>
              _send_access_release_to_peer_thread peer_addr
                (build_access_release (client_id self) T (request_number self)))
           (peer_addresses self)
  /\ state (state_of out) = (if waiting_for_access self then WAITING else IDLE).
Proof. exact (release_access_holding reply_rpc self). Qed.

Lemma release_access_resets_witness :
  has_access busy = true
  /\ deferred_replies (state_of (release_access never_fails busy)) = Dict.empty.
Proof.
  split; [reflexivity|].
  destruct (release_access_resets never_fails busy eq_refl) as (Hstate & _).
  rewrite Hstate. reflexivity.
Defined.

(** X9: the broadcast starts exactly one sender thread per configured
    peer address, in the order of the list, every one with the same
    request, which carries the node's identifier and the timestamp and
    number of the pending request; it changes nothing in the node. *)
Theorem broadcast_one_thread_per_peer (pending : PendingRequest) (self : ClientNode) :
  let out := _broadcast_access_request pending self in
  state_of out = self
  /\ effects_of out =
       map (fun peer_addr =>
              StartThread (_send_access_request_to_peer_thread peer_addr
                (build_access_request (client_id self) (p_lamport_timestamp pending)
                   (p_request_number pending))))
           (peer_addresses self).
Proof.
  unfold _broadcast_access_request, mbind, M_bind, get. cbv beta zeta.
  cbn [result_of state_of effects_of fst snd app].
  rewrite for_each_emit. split; reflexivity.
Qed.

(** What the sender thread does to the node, for either outcome of its
    call. *)
Lemma send_access_request_state (peer_addr : string) (request : AccessRequest)
    (outcome : rpc_result AccessResponse) (self : ClientNode) :
  peer_addr ∈ peer_stubs self ->
  let out := _send_access_request_to_peer peer_addr request outcome self in
  let c :=
    match outcome with
    | Ok response =>
        {| LamportClock._time :=
             Z.max (LamportClock._time (clock self)) (resp_lamport_timestamp response) + 1 |}
    | Failed _ => clock self
    end in
  result_of out = Returned
  /\ state_of out =
       set_received_replies ({[ peer_addr ]} ∪ received_replies self)
         (set_outstanding_replies (outstanding_replies self ∖ {[ peer_addr ]})
            (set_clock c self))
  /\ last (effects_of out) = Some NotifyAll.
Proof.
  intros Hstub.
  destruct self as [id po ps pa jmin jmax jc ck lg rn rq ha wa dr rr orr ru gs st].
  cbn [peer_stubs] in Hstub. unfold _send_access_request_to_peer. run_m.
  rewrite (bool_decide_eq_true_2 _ Hstub). cbn [negb].
  destruct outcome as [response|e]; run_m; destruct ck as [t]; repeat split.
Qed.

(** X10: when the sender thread comes back, the peer it called counts as
    having replied, whether the call returned a grant, a deferral or an
    error: its address moves from the outstanding to the received
    replies, the waiting thread is notified, and only a returned reply
    touches the clock (merged with the reply's timestamp).  Without a
    stub for the address the thread dies with the node untouched. *)
Theorem reply_is_counted (peer_addr : string) (request : AccessRequest)
    (outcome : rpc_result AccessResponse) (self : ClientNode) :
  let out := _send_access_request_to_peer peer_addr request outcome self in
  if bool_decide (peer_addr ∈ peer_stubs self) then
    (result_of out = Returned
    /\ peer_addr ∈ received_replies (state_of out)
    /\ peer_addr ∉ outstanding_replies (state_of out)
    /\ received_replies (state_of out) = {[ peer_addr ]} ∪ received_replies self
    /\ outstanding_replies (state_of out) = outstanding_replies self ∖ {[ peer_addr ]}
    /\ has_access (state_of out) = has_access self
    /\ waiting_for_access (state_of out) = waiting_for_access self
    /\ last (effects_of out) = Some NotifyAll
    /\ LamportClock._time (clock (state_of out)) =
         match outcome with
         | Ok response =>
             Z.max (LamportClock._time (clock self)) (resp_lamport_timestamp response) + 1
         | Failed _ => LamportClock._time (clock self)
         end)
  else
    (out = (Uncaught, self, [])).
Proof.
  intros out. destruct (bool_decide (peer_addr ∈ peer_stubs self)) eqn:Hstub.
  - apply bool_decide_eq_true_1 in Hstub.
    destruct (send_access_request_state peer_addr request outcome self Hstub)
      as (Hres & Hstate & Hlast).
    fold out in Hres, Hstate, Hlast. rewrite Hstate.
    destruct self as [id po ps pa jmin jmax jc ck lg rn rq ha wa dr rr orr ru gs st].
    cbn [received_replies outstanding_replies has_access waiting_for_access clock
         set_received_replies set_outstanding_replies set_clock].
    repeat split; try assumption; try set_solver.
    destruct outcome; reflexivity.
  - unfold out, _send_access_request_to_peer.
    destruct self as [id po ps pa jmin jmax jc ck lg rn rq ha wa dr rr orr ru gs st].
    cbn [peer_stubs] in Hstub. run_m. rewrite Hstub. reflexivity.
Qed.



End ReleaseProperties.

(** ** Waiting for the replies *)

Section WaitProperties.

Import Client Spec Inv Examples.

Lemma waits_cons_wait (timeout : Q) (effs : list effect) :
  waits (Wait timeout :: effs) = S (waits effs).
Proof. reflexivity. Qed.

Lemma waits_cons_out (o : Logger.output) (effs : list effect) :
  waits (Out o :: effs) = waits effs.
Proof. reflexivity. Qed.

Lemma state_on_clock_get_time (self : ClientNode) :
  state_of (on_clock LamportClock.get_time self) = self.
Proof. destruct self. reflexivity. Qed.

Lemma effects_on_clock {A} (f : LamportClock.t -> LamportClock.t * A) (self : ClientNode) :
  effects_of (on_clock f self) = [].
Proof. unfold on_clock. destruct (f (clock self)). reflexivity. Qed.

Lemma wait_step (others : list action) (rest : list (list action)) (self : ClientNode) :
  awaiting_replies self = true ->
  exists line,
    let next := state_of (for_each others perform self) in
    result_of (wait_for_all_replies (others :: rest) self)
      = result_of (wait_for_all_replies rest next)
    /\ state_of (wait_for_all_replies (others :: rest) self)
        = state_of (wait_for_all_replies rest next)
    /\ effects_of (wait_for_all_replies (others :: rest) self)
        = (Out line :: Wait 1 :: effects_of (for_each others perform self)
           ++ effects_of (wait_for_all_replies rest next))%list.
Proof.
  intros Hwait. eexists. cbv zeta. cbn [wait_for_all_replies].
  rewrite bind_result, bind_state, bind_effects.
  change (result_of (get self)) with self. change (state_of (get self)) with self.
  change (effects_of (get self)) with (@nil effect).
  cbv beta. rewrite Hwait.
  repeat (rewrite ?bind_result, ?bind_state, ?bind_effects; cbv beta).
  unfold log_info.
  repeat (rewrite ?bind_result, ?bind_state, ?bind_effects; cbv beta).
  rewrite !state_on_clock_get_time, !effects_on_clock.
  change (state_of (get self)) with self. change (result_of (get self)) with self.
  change (effects_of (get self)) with (@nil effect).
  change (state_of (emit ?e self)) with self.
  cbn [emit effects_of state_of result_of fst snd app].
  repeat split.
Qed.

(** How the wait loop ends, by induction on the schedule. *)
Lemma wait_loop_end (during_wait : list (list action)) (self : ClientNode) :
  let out := wait_for_all_replies during_wait self in
  awaiting_replies (state_of out) = negb (result_of out)
  /\ (waits (effects_of out) <= length during_wait)%nat
  /\ peer_addresses (state_of out) = peer_addresses self.
Proof.
  revert self. induction during_wait as [|others rest IH]; intros self out.
  - subst out. cbn [wait_for_all_replies].
    unfold mbind, M_bind, get. cbv beta zeta.
    cbn [result_of state_of effects_of fst snd].
    destruct (awaiting_replies self) eqn:Hw; cbn; rewrite ?Hw; auto.
  - destruct (awaiting_replies self) eqn:Hw.
    + destruct (wait_step others rest self Hw) as (line & Hres & Hstate & Heffs).
      cbv zeta in Hres, Hstate, Heffs. subst out. rewrite Hres, Hstate, Heffs.
      destruct (IH (state_of (for_each others perform self))) as (Ha & Hn & Hp).
      destruct (quiet_for_each others perform quiet_perform self) as [Hp' Hq].
      split; [exact Ha|]. split; [|rewrite Hp; exact Hp'].
      rewrite waits_cons_out, waits_cons_wait, waits_app, Hq. simpl. lia.
    + subst out. rewrite (wait_over _ _ Hw).
      cbn [result_of state_of effects_of fst snd negb]. rewrite Hw.
      split; [reflexivity|]. split; [|reflexivity].
      change (waits []) with 0%nat. lia.
Qed.


Lemma request_print_access_end (sch : schedule) (self : ClientNode) :
  let out := request_print_access sch self in
  (result_of out = true ->
   has_access (state_of out) = true /\ waiting_for_access (state_of out) = false)
  /\ (result_of out = false ->
      (size (received_replies (state_of out)) < length (peer_addresses self))%nat)
  /\ peer_addresses (state_of out) = peer_addresses self.
Proof.
  intros out.
  pose (r1 := request_print_access_enqueue self).
  pose (r2 := _broadcast_access_request (result_of r1) (state_of r1)).
  pose (r3 := for_each (before_wait sch) perform (state_of r2)).
  pose (W := wait_for_all_replies (during_wait sch) (state_of r3)).
  assert (Hperform : forall l, quiet (for_each l perform)).
  { intros l. apply quiet_for_each, quiet_perform. }
  destruct (quiet_enqueue self) as [Hp1 _]. fold r1 in Hp1.
  destruct (quiet_broadcast (result_of r1) (state_of r1)) as [Hp2 _]. fold r2 in Hp2.
  destruct (Hperform (before_wait sch) (state_of r2)) as [Hp3 _]. fold r3 in Hp3.
  destruct (wait_loop_end (during_wait sch) (state_of r3)) as (Ha & _ & Hp4).
  fold W in Ha, Hp4.
  assert (Hres : result_of out =
    result_of ((if result_of W then
                  for_each (before_enter sch) perform;;
                  request_print_access_enter;;
                  mret true
                else mret false) (state_of W))) by reflexivity.
  assert (Hstate : state_of out =
    state_of ((if result_of W then
                 for_each (before_enter sch) perform;;
                 request_print_access_enter;;
                 mret true
               else mret false) (state_of W))) by reflexivity.
  rewrite Hres, Hstate. clear Hres Hstate.
  assert (Hpeers : peer_addresses (state_of W) = peer_addresses self).
  { rewrite Hp4, Hp3, Hp2, Hp1. reflexivity. }
  clearbody W. clear r1 r2 r3 Hp1 Hp2 Hp3 Hp4.
  destruct (result_of W).
  - change (result_of ((for_each (before_enter sch) perform;;
                        request_print_access_enter;; mret true) (state_of W))) with true.
    change (state_of ((for_each (before_enter sch) perform;;
                       request_print_access_enter;; mret true) (state_of W)))
      with (state_of (request_print_access_enter
                        (state_of (for_each (before_enter sch) perform (state_of W))))).
    split; [intros _; apply enter_flags|]. split; [discriminate|].
    destruct (quiet_enter (state_of (for_each (before_enter sch) perform (state_of W))))
      as [Hp5 _].
    destruct (Hperform (before_enter sch) (state_of W)) as [Hp6 _].
    rewrite Hp5, Hp6. exact Hpeers.
  - change (result_of ((mret false : M ClientNode bool) (state_of W))) with false.
    change (state_of ((mret false : M ClientNode bool) (state_of W))) with (state_of W).
    split; [discriminate|]. split; [|exact Hpeers].
    intros _. unfold awaiting_replies in Ha. rewrite Hpeers in Ha.
    apply Nat.ltb_lt in Ha. exact Ha.
Qed.


(** X13: whenever [request_print_access] returns, the node holds the
    resource: [has_access] is set and [waiting_for_access] cleared by its
    last block.  While it has not returned, the node is still short of
    replies.  In both cases the configured peers are the same as before. *)
Theorem request_print_access_returns_holding (sch : schedule) (self : ClientNode) :
  let out := request_print_access sch self in
  (result_of out = true ->
   has_access (state_of out) = true /\ waiting_for_access (state_of out) = false)
  /\ (result_of out = false ->
      (size (received_replies (state_of out)) < length (peer_addresses self))%nat)
  /\ peer_addresses (state_of out) = peer_addresses self.
Proof. exact (request_print_access_end sch self). Qed.

Lemma request_print_access_returns_holding_witness :
  result_of (request_print_access alone solitary) = true
  /\ has_access (state_of (request_print_access alone solitary)) = true.
Proof.
  assert (H : result_of (request_print_access alone solitary) = true) by reflexivity.
  split; [exact H|].
  exact (proj1 (proj1 (request_print_access_returns_holding alone solitary) H)).
Defined.

End WaitProperties.

(** ** Starting up *)

Section StubProperties.

Import Client Spec Inv Examples.

Lemma add_stub_elem (a b : string) (stubs : list string) :
  a ∈ add_stub b stubs <-> a ∈ stubs \/ a = b.
Proof.
  unfold add_stub. case_bool_decide as Hb.
  - split; [auto|]. intros [H| ->]; assumption.
  - rewrite elem_of_app, list_elem_of_singleton. reflexivity.
Qed.

Lemma add_stub_NoDup (b : string) (stubs : list string) :
  NoDup stubs -> NoDup (add_stub b stubs).
Proof.
  intros Hnd. unfold add_stub. case_bool_decide as Hb; [exact Hnd|].
  apply NoDup_app. split; [exact Hnd|]. split; [|apply NoDup_singleton].
  intros x Hx Hin. apply list_elem_of_singleton in Hin as ->. exact (Hb Hx).
Qed.

(** The stub loop of [initialize_grpc], seen from the list of stubs. *)
Lemma stub_loop (peers : list string) (self : ClientNode) :
  let out :=
    for_each peers (fun peer_addr =>
      modify (fun self => set_peer_stubs (add_stub peer_addr (peer_stubs self)) self)) self in
  state_of out = set_peer_stubs (foldl (fun stubs a => add_stub a stubs) (peer_stubs self) peers) self
  /\ effects_of out = [].
Proof.
  revert self. induction peers as [|a peers IH]; intros self.
  - destruct self. split; reflexivity.
  - cbn [for_each foldl]. cbv zeta. rewrite bind_state, bind_effects.
    cbn [modify state_of effects_of result_of fst snd app].
    destruct (IH (set_peer_stubs (add_stub a (peer_stubs self)) self)) as [Hs He].
    cbv zeta in Hs, He. rewrite Hs, He. destruct self. split; reflexivity.
Qed.

Lemma stubs_fold_elem (a : string) (peers stubs : list string) :
  a ∈ foldl (fun stubs a => add_stub a stubs) stubs peers <-> a ∈ stubs \/ a ∈ peers.
Proof.
  revert stubs. induction peers as [|b peers IH]; intros stubs; cbn [foldl].
  - rewrite elem_of_nil. tauto.
  - rewrite IH, add_stub_elem, elem_of_cons. tauto.
Qed.

Lemma stubs_fold_NoDup (peers stubs : list string) :
  NoDup stubs -> NoDup (foldl (fun stubs a => add_stub a stubs) stubs peers).
Proof.
  revert stubs. induction peers as [|b peers IH]; intros stubs Hnd; cbn [foldl];
    [exact Hnd|].
  apply IH, add_stub_NoDup, Hnd.
Qed.

Lemma initialize_grpc_state (self : ClientNode) :
  state_of (initialize_grpc self) =
  set_peer_stubs
    (foldl (fun stubs a => add_stub a stubs) (peer_stubs self) (peer_addresses self))
    (set_grpc_server true self)
  /\ head (effects_of (initialize_grpc self)) = Some (Listen ("[::]:" +:+ pretty (port self))).
Proof.
  unfold initialize_grpc.
  rewrite !bind_state, !bind_effects.
  change (state_of (modify (set_grpc_server true) self)) with (set_grpc_server true self).
  change (effects_of (modify (set_grpc_server true) self)) with (@nil effect).
  change (result_of (get (set_grpc_server true self))) with (set_grpc_server true self).
  change (state_of (get (set_grpc_server true self))) with (set_grpc_server true self).
  cbv beta.
  repeat (rewrite ?bind_state, ?bind_effects; cbv beta).
  change (state_of (emit ?e ?s)) with s.
  destruct (stub_loop (peer_addresses (set_grpc_server true self)) (set_grpc_server true self))
    as [Hs He].
  cbv zeta in Hs, He. rewrite Hs.
  unfold log_info. repeat (rewrite ?bind_state; cbv beta).
  change (state_of (emit ?e ?s)) with s. change (state_of (get ?s)) with s.
  split; [destruct self; reflexivity|reflexivity].
Qed.

(** X14: [initialize_grpc] opens the node's port first and leaves the
    node with a server and with a stub for every configured peer, next to
    the stubs it had, each address once; so on a freshly built node the
    stubs are exactly the configured peers, and no sender thread for a
    configured peer dies for want of a stub. *)
Theorem initialize_grpc_stubs_every_peer (self : ClientNode) :
  let after := state_of (initialize_grpc self) in
  head (effects_of (initialize_grpc self)) = Some (Listen ("[::]:" +:+ pretty (port self)))
  /\ grpc_server after = true
  /\ (forall a, a ∈ peer_stubs after <-> a ∈ peer_stubs self \/ a ∈ peer_addresses self)
  /\ (NoDup (peer_stubs self) -> NoDup (peer_stubs after))
  /\ (forall a request outcome,
        a ∈ peer_addresses self ->
        result_of (_send_access_request_to_peer a request outcome after) = Returned).
Proof.
  intros after. destruct (initialize_grpc_state self) as [Hstate Hhead].
  fold after in Hstate.
  assert (Hstubs : peer_stubs after =
    foldl (fun stubs a => add_stub a stubs) (peer_stubs self) (peer_addresses self)).
  { rewrite Hstate. destruct self. reflexivity. }
  split; [exact Hhead|].
  split; [rewrite Hstate; destruct self; reflexivity|].
  split; [intros a; rewrite Hstubs; apply stubs_fold_elem|].
  split; [intros Hnd; rewrite Hstubs; apply stubs_fold_NoDup, Hnd|].
  intros a request outcome Ha.
  apply send_access_request_state. rewrite Hstubs. apply stubs_fold_elem. right. exact Ha.
Qed.

Lemma initialize_grpc_stubs_every_peer_witness :
  "localhost:50063" ∈ peer_addresses waiter
  /\ result_of (_send_access_request_to_peer "localhost:50063" (request_of 1 1 1)
                  (Failed {| code := "StatusCode.UNAVAILABLE" |})
                  (state_of (initialize_grpc waiter))) = Returned.
Proof.
  assert (H : "localhost:50063" ∈ peer_addresses waiter).
  { apply elem_of_cons. left. reflexivity. }
  split; [exact H|].
  destruct (initialize_grpc_stubs_every_peer waiter) as (_ & _ & _ & _ & Hsend).
  exact (Hsend "localhost:50063" (request_of 1 1 1)
           (Failed {| code := "StatusCode.UNAVAILABLE" |}) H).
Defined.

End StubProperties.

(** ** Printing with retries *)

Section PrintProperties.

Import Client Spec Inv Examples.

(** One pass of the retry loop, case by case. *)
Lemma print_document_loop_unfold (fuel : nat) (printer : nat -> PrintRequest -> attempt)
    (request : PrintRequest) (message_content : string) (max_retries retry_count : Z)
    (self : ClientNode) :
  print_document_loop (S fuel) printer request message_content max_retries retry_count self =
  if retry_count <? max_retries then
    let L := LamportClock._time (clock self) in
    let line :=
      Out (Logger.info (logger self)
             ("Enviando documento para impressão: " +:+ message_content) (Some L)) in
    match printer (Z.to_nat retry_count) request with
    | Answered response =>
        let T := Z.max L (presp_lamport_timestamp response) + 1 in
        (success response, set_clock {| LamportClock._time := T |} self,
         [line;
          Out (if success response
               then Logger.info (logger self)
                      ("Impressão confirmada: " +:+ confirmation_message response) (Some T)
               else Logger.error (logger self)
                      "Falha na impressão - servidor retornou sucesso=False" (Some T))])
    | RpcFailed e =>
        let ticked := set_clock {| LamportClock._time := L + 1 |} self in
        if retry_count + 1 <? max_retries then
          if retryable e then
            let R := print_document_loop fuel printer request message_content
                       max_retries (retry_count + 1) ticked in
            (result_of R, state_of R,
             line
             :: Out (Logger.warning (logger self)
                       ("Erro ao comunicar com servidor (" +:+ code_name e
                        +:+ "), tentando novamente em "
                        +:+ pretty (Z.min (2 ^ (retry_count + 1)) 10)
                        +:+ "s (tentativa " +:+ pretty (retry_count + 1) +:+ "/"
                        +:+ pretty max_retries +:+ ")") (Some (L + 1)))
             :: Sleep (inject_Z (Z.min (2 ^ (retry_count + 1)) 10))
             :: effects_of R)
          else
            (false, ticked,
             [line;
              Out (Logger.error (logger self)
                     ("Erro não recuperável ao comunicar com servidor: " +:+ code_name e)
                     (Some (L + 1)))])
        else
          (false, ticked,
           [line;
            Out (Logger.error (logger self)
                   ("Falha ao comunicar com servidor após " +:+ pretty max_retries
                    +:+ " tentativas: " +:+ code_name e) (Some (L + 1)))])
    | Crashed type_name message =>
        let ticked := set_clock {| LamportClock._time := L + 1 |} self in
        let failure :=
          Out (Logger.error (logger self)
                 ("Erro inesperado ao imprimir: " +:+ type_name +:+ ": " +:+ message)
                 (Some (L + 1))) in
        if retry_count + 1 >=? max_retries then (false, ticked, [line; failure])
        else
          let R := print_document_loop fuel printer request message_content
                     max_retries (retry_count + 1) ticked in
          (result_of R, state_of R, line :: failure :: Sleep 1 :: effects_of R)
    end
  else (false, self, []).
Proof.
  destruct self as [id po ps pa jmin jmax jc ck lg rn rq ha wa dr rr orr ru gs st].
  destruct ck as [L].
  cbn [print_document_loop].
  destruct (retry_count <? max_retries); [|reflexivity].
  destruct (printer (Z.to_nat retry_count) request) as [response|e|type_name message].
  - destruct (success response); run_m; reflexivity.
  - destruct (retry_count + 1 <? max_retries); [|run_m; reflexivity].
    destruct (retryable e); run_m; reflexivity.
  - destruct (retry_count + 1 >=? max_retries); run_m; reflexivity.
Qed.

Lemma print_document_unfold (printer : nat -> PrintRequest -> attempt)
    (message_content : string) (max_retries : Z) (self : ClientNode) :
  let T := LamportClock._time (clock self) + 1 in
  let R :=
    print_document_loop (Z.to_nat max_retries) printer
      (build_print_request (client_id self) message_content T (request_number self))
      message_content max_retries 0
      (set_clock {| LamportClock._time := T |} self) in
  print_document printer message_content max_retries self =
  (result_of R, state_of R, effects_of R).
Proof.
  destruct self as [id po ps pa jmin jmax jc ck lg rn rq ha wa dr rr orr ru gs st].
  destruct ck as [L]. unfold print_document. run_m. reflexivity.
Qed.

Lemma print_document_loop_clock (fuel : nat) (printer : nat -> PrintRequest -> attempt)
    (request : PrintRequest) (message_content : string) (max_retries retry_count : Z)
    (self : ClientNode) :
  let after := state_of (print_document_loop fuel printer request message_content
                           max_retries retry_count self) in
  but_clock after = but_clock self
  /\ LamportClock._time (clock self) <= LamportClock._time (clock after).
Proof.
  revert retry_count self. induction fuel as [|fuel IH]; intros retry_count self.
  - split; [reflexivity|]. change (LamportClock._time (clock self) <= LamportClock._time (clock self)). lia.
  - cbv zeta. rewrite print_document_loop_unfold.
    assert (Hset : forall T, but_clock (set_clock {| LamportClock._time := T |} self)
                             = but_clock self) by (intros T; destruct self; reflexivity).
    assert (Hclk : forall T, LamportClock._time
                               (clock (set_clock {| LamportClock._time := T |} self)) = T)
      by (intros T; destruct self; reflexivity).
    destruct (retry_count <? max_retries); [|split; [reflexivity|cbn [state_of fst snd]; lia]].
    cbv zeta.
    destruct (printer (Z.to_nat retry_count) request) as [response|e|type_name message].
    + cbn [state_of fst snd]. rewrite Hset, Hclk. split; [reflexivity|lia].
    + destruct (retry_count + 1 <? max_retries);
        [|cbn [state_of fst snd]; rewrite Hset, Hclk; split; [reflexivity|lia]].
      destruct (retryable e);
        [|cbn [state_of fst snd]; rewrite Hset, Hclk; split; [reflexivity|lia]].
      change (state_of (?a, ?b, ?c)) with b.
      destruct (IH (retry_count + 1)
                   (set_clock {| LamportClock._time := LamportClock._time (clock self) + 1 |}
                      self)) as [Hb Hc].
      cbv zeta in Hb, Hc. rewrite Hb, Hset. rewrite Hclk in Hc. split; [reflexivity|lia].
    + destruct (retry_count + 1 >=? max_retries);
        [cbn [state_of fst snd]; rewrite Hset, Hclk; split; [reflexivity|lia]|].
      change (state_of (?a, ?b, ?c)) with b.
      destruct (IH (retry_count + 1)
                   (set_clock {| LamportClock._time := LamportClock._time (clock self) + 1 |}
                      self)) as [Hb Hc].
      cbv zeta in Hb, Hc. rewrite Hb, Hset. rewrite Hclk in Hc. split; [reflexivity|lia].
Qed.

Lemma print_document_clock (printer : nat -> PrintRequest -> attempt)
    (message_content : string) (max_retries : Z) (self : ClientNode) :
  let after := state_of (print_document printer message_content max_retries self) in
  but_clock after = but_clock self
  /\ LamportClock._time (clock self) < LamportClock._time (clock after).
Proof.
  intros after. subst after. rewrite print_document_unfold. cbv zeta.
  change (state_of (?a, ?b, ?c)) with b.
  match goal with
  | |- context [state_of (print_document_loop ?f ?p ?r ?m ?x ?c ?s)] =>
      destruct (print_document_loop_clock f p r m x c s) as [Hb Hc]
  end.
  cbv zeta in Hb, Hc. rewrite Hb.
  assert (Hclk : LamportClock._time
            (clock (set_clock {| LamportClock._time := LamportClock._time (clock self) + 1 |}
                      self)) = LamportClock._time (clock self) + 1)
    by (destruct self; reflexivity).
  rewrite Hclk in Hc.
  split; [destruct self; reflexivity|lia].
Qed.

(** X15: [print_document] changes nothing in the node but its clock,
    whatever the printer does, and the clock has strictly advanced when
    it returns. *)
Theorem print_document_only_moves_clock (printer : nat -> PrintRequest -> attempt)
    (message_content : string) (max_retries : Z) (self : ClientNode) :
  let after := state_of (print_document printer message_content max_retries self) in
  but_clock after = but_clock self
  /\ LamportClock._time (clock self) < LamportClock._time (clock after).
Proof. exact (print_document_clock printer message_content max_retries self). Qed.

Lemma print_document_loop_ext (fuel : nat) (printer printer' : nat -> PrintRequest -> attempt)
    (request : PrintRequest) (message_content : string) (max_retries retry_count : Z)
    (self : ClientNode) :
  0 <= retry_count ->
  (forall n, (Z.to_nat retry_count <= n < Z.to_nat max_retries)%nat ->
             printer n request = printer' n request) ->
  print_document_loop fuel printer request message_content max_retries retry_count self =
  print_document_loop fuel printer' request message_content max_retries retry_count self.
Proof.
  revert retry_count self. induction fuel as [|fuel IH]; intros retry_count self Hpos Hagree;
    [reflexivity|].
  rewrite !print_document_loop_unfold.
  destruct (retry_count <? max_retries) eqn:Hlt; [|reflexivity].
  apply Z.ltb_lt in Hlt.
  rewrite <- (Hagree (Z.to_nat retry_count)) by lia.
  assert (Hnext : forall s,
    print_document_loop fuel printer request message_content max_retries (retry_count + 1) s =
    print_document_loop fuel printer' request message_content max_retries (retry_count + 1) s).
  { intros s. apply IH; [lia|]. intros n Hn. apply Hagree. lia. }
  cbv zeta.
  destruct (printer (Z.to_nat retry_count) request) as [response|e|type_name message];
    [reflexivity| |].
  - destruct (retry_count + 1 <? max_retries); [|reflexivity].
    destruct (retryable e); [|reflexivity]. rewrite Hnext. reflexivity.
  - destruct (retry_count + 1 >=? max_retries); [reflexivity|]. rewrite Hnext. reflexivity.
Qed.

(** X16: [print_document] calls the printer at most [max_retries] times:
    what the printer would do on any later call has no bearing on the
    result, the node or the output. *)
Theorem print_document_bounded_attempts (printer printer' : nat -> PrintRequest -> attempt)
    (message_content : string) (max_retries : Z) (self : ClientNode) :
  (forall n request, (n < Z.to_nat max_retries)%nat -> printer n request = printer' n request) ->
  print_document printer message_content max_retries self =
  print_document printer' message_content max_retries self.
Proof.
  intros Hagree. rewrite !print_document_unfold. cbv zeta.
  rewrite (print_document_loop_ext _ printer printer'); [reflexivity|lia|].
  intros n Hn. apply Hagree. lia.
Qed.

Lemma print_document_bounded_attempts_witness :
  print_document printer_back_soon "doc" 1 solitary =
  print_document (fun _ _ => RpcFailed {| code := "StatusCode.UNAVAILABLE" |}) "doc" 1 solitary.
Proof.
  apply (print_document_bounded_attempts printer_back_soon
           (fun _ _ => RpcFailed {| code := "StatusCode.UNAVAILABLE" |}) "doc" 1 solitary).
  intros n request Hn. change (Z.to_nat 1) with 1%nat in Hn.
  destruct n as [|n]; [reflexivity|lia].
Defined.

(** X17: an answer of the printer is final.  If the first call comes
    back with a response, [print_document] returns that response's
    [success] flag, positive or negative, without retrying or sleeping,
    and leaves the clock one past the larger of the request's and the
    response's timestamps. *)
Theorem print_document_answer_is_final (printer : nat -> PrintRequest -> attempt)
    (message_content : string) (max_retries : Z) (self : ClientNode)
    (response : PrintResponse) :
  0 < max_retries ->
  let T := LamportClock._time (clock self) + 1 in
  printer 0%nat (build_print_request (client_id self) message_content T (request_number self))
    = Answered response ->
  let out := print_document printer message_content max_retries self in
  result_of out = success response
  /\ sleeps (effects_of out) = []
  /\ length (effects_of out) = 2%nat
  /\ LamportClock._time (clock (state_of out)) =
       Z.max T (presp_lamport_timestamp response) + 1.
Proof.
  intros Hmax T Hanswer out. subst out. rewrite print_document_unfold. cbv zeta.
  destruct (Z.to_nat max_retries) as [|fuel] eqn:Hfuel; [lia|].
  rewrite print_document_loop_unfold.
  assert (Hlt : (0 <? max_retries) = true) by (apply Z.ltb_lt; lia).
  rewrite Hlt. cbv zeta. change (Z.to_nat 0) with 0%nat.
  fold T. rewrite Hanswer.
  cbn [result_of state_of effects_of fst snd].
  destruct self as [id po ps pa jmin jmax jc ck lg rn rq ha wa dr rr orr ru gs st].
  repeat split.
Qed.

Lemma print_document_answer_is_final_witness :
  result_of (print_document (fun _ request =>
               Answered (build_print_response false "no paper" 9)) "doc" 3 solitary) = false.
Proof.
  apply (print_document_answer_is_final
           (fun _ request => Answered (build_print_response false "no paper" 9))
           "doc" 3 solitary (build_print_response false "no paper" 9)).
  - reflexivity.
  - reflexivity.
Defined.

Lemma sleeps_cons_out (o : Logger.output) (effs : list effect) :
  sleeps (Out o :: effs) = sleeps effs.
Proof. reflexivity. Qed.

Lemma sleeps_cons_sleep (d : Q) (effs : list effect) :
  sleeps (Sleep d :: effs) = d :: sleeps effs.
Proof. reflexivity. Qed.

Lemma backoff_within (n : Z) :
  0 < n -> (1 <= inject_Z (Z.min (2 ^ n) 10))%Q /\ (inject_Z (Z.min (2 ^ n) 10) <= 10)%Q.
Proof.
  intros Hn.
  assert (H2 : 2 <= 2 ^ n).
  { change 2 with (2 ^ 1) at 1. apply Z.pow_le_mono_r; lia. }
  split.
  - change 1%Q with (inject_Z 1). rewrite <- Zle_Qle. lia.
  - change 10%Q with (inject_Z 10). rewrite <- Zle_Qle. lia.
Qed.

Lemma print_document_loop_sleeps (fuel : nat) (printer : nat -> PrintRequest -> attempt)
    (request : PrintRequest) (message_content : string) (max_retries retry_count : Z)
    (self : ClientNode) :
  0 <= retry_count ->
  let pauses := sleeps (effects_of (print_document_loop fuel printer request message_content
                                      max_retries retry_count self)) in
  Forall (fun d => (1 <= d)%Q /\ (d <= 10)%Q) pauses
  /\ (length pauses <= Z.to_nat (max_retries - retry_count) - 1)%nat.
Proof.
  revert retry_count self. induction fuel as [|fuel IH]; intros retry_count self Hpos.
  - split; [apply Forall_nil; exact I|]. simpl. lia.
  - cbv zeta. rewrite print_document_loop_unfold.
    destruct (retry_count <? max_retries) eqn:Hlt;
      [|split; [apply Forall_nil; exact I|simpl; lia]].
    cbv zeta.
    destruct (printer (Z.to_nat retry_count) request) as [response|e|type_name message].
    + split; [apply Forall_nil; exact I|simpl; lia].
    + destruct (retry_count + 1 <? max_retries) eqn:Hnext;
        [|split; [apply Forall_nil; exact I|simpl; lia]].
      destruct (retryable e); [|split; [apply Forall_nil; exact I|simpl; lia]].
      change (effects_of (?a, ?b, ?c)) with c.
      rewrite sleeps_cons_out, sleeps_cons_out, sleeps_cons_sleep.
      apply Z.ltb_lt in Hnext.
      match goal with
      | |- context [effects_of (print_document_loop fuel printer request message_content
                                  max_retries (retry_count + 1) ?s)] =>
          destruct (IH (retry_count + 1) s) as [Hall Hlen]; [lia|]
      end.
      cbv zeta in Hall, Hlen. split.
      * apply Forall_cons. split; [apply backoff_within; lia|exact Hall].
      * cbn [length]. lia.
    + destruct (retry_count + 1 >=? max_retries) eqn:Hnext;
        [split; [apply Forall_nil; exact I|simpl; lia]|].
      change (effects_of (?a, ?b, ?c)) with c.
      rewrite sleeps_cons_out, sleeps_cons_out, sleeps_cons_sleep.
      rewrite Z.geb_leb in Hnext. apply Z.leb_gt in Hnext.
      match goal with
      | |- context [effects_of (print_document_loop fuel printer request message_content
                                  max_retries (retry_count + 1) ?s)] =>
          destruct (IH (retry_count + 1) s) as [Hall Hlen]; [lia|]
      end.
      cbv zeta in Hall, Hlen. split.
      * apply Forall_cons. split; [split; discriminate|exact Hall].
      * cbn [length]. lia.
Qed.

(** X18: between two attempts [print_document] sleeps at least one and
    at most ten seconds, and it sleeps fewer times than it may try:
    at most [max_retries - 1] times, never after the last attempt. *)
Theorem print_document_backoff_is_bounded (printer : nat -> PrintRequest -> attempt)
    (message_content : string) (max_retries : Z) (self : ClientNode) :
  let pauses := sleeps (effects_of (print_document printer message_content max_retries self)) in
  Forall (fun d => (1 <= d)%Q /\ (d <= 10)%Q) pauses
  /\ (length pauses <= Z.to_nat max_retries - 1)%nat.
Proof.
  cbv zeta. rewrite print_document_unfold. cbv zeta.
  change (effects_of (?a, ?b, ?c)) with c.
  match goal with
  | |- context [effects_of (print_document_loop ?f ?p ?r ?m ?x 0 ?s)] =>
      destruct (print_document_loop_sleeps f p r m x 0 s) as [Hall Hlen]; [lia|]
  end.
  cbv zeta in Hall, Hlen. rewrite Z.sub_0_r in Hlen. split; assumption.
Qed.

Lemma print_document_loop_true (fuel : nat) (printer : nat -> PrintRequest -> attempt)
    (request : PrintRequest) (message_content : string) (max_retries retry_count : Z)
    (self : ClientNode) :
  0 <= retry_count ->
  result_of (print_document_loop fuel printer request message_content
               max_retries retry_count self) = true ->
  exists n response,
    (Z.to_nat retry_count <= n < Z.to_nat max_retries)%nat
    /\ printer n request = Answered response
    /\ success response = true.
Proof.
  revert retry_count self. induction fuel as [|fuel IH]; intros retry_count self Hpos;
    [discriminate|].
  rewrite print_document_loop_unfold.
  destruct (retry_count <? max_retries) eqn:Hlt; [|discriminate].
  apply Z.ltb_lt in Hlt. cbv zeta.
  destruct (printer (Z.to_nat retry_count) request) as [response|e|type_name message] eqn:Hp.
  - cbn [result_of fst]. intros Hs. exists (Z.to_nat retry_count), response.
    split; [lia|]. split; [exact Hp|exact Hs].
  - destruct (retry_count + 1 <? max_retries); [|discriminate].
    destruct (retryable e); [|discriminate].
    change (result_of (?a, ?b, ?c)) with a. intros Hr.
    apply IH in Hr; [|lia]. destruct Hr as (n & response & Hn & Hr).
    exists n, response. split; [lia|exact Hr].
  - destruct (retry_count + 1 >=? max_retries); [discriminate|].
    change (result_of (?a, ?b, ?c)) with a. intros Hr.
    apply IH in Hr; [|lia]. destruct Hr as (n & response & Hn & Hr).
    exists n, response. split; [lia|exact Hr].
Qed.

(** X19: [print_document] returns [True] only if one of its at most
    [max_retries] calls came back with a response whose [success] flag is
    set: errors and exceptions are never reported as a print. *)
Theorem print_document_true_means_confirmed (printer : nat -> PrintRequest -> attempt)
    (message_content : string) (max_retries : Z) (self : ClientNode) :
  result_of (print_document printer message_content max_retries self) = true ->
  exists n response,
    (n < Z.to_nat max_retries)%nat
    /\ printer n (build_print_request (client_id self) message_content
                    (LamportClock._time (clock self) + 1) (request_number self))
       = Answered response
    /\ success response = true.
Proof.
  rewrite print_document_unfold. cbv zeta. change (result_of (?a, ?b, ?c)) with a.
  intros Hr. apply print_document_loop_true in Hr; [|lia].
  destruct Hr as (n & response & Hn & Hr). exists n, response. split; [lia|exact Hr].
Qed.

Lemma print_document_true_means_confirmed_witness :
  result_of (print_document printer_back_soon "doc" 3 solitary) = true
  /\ exists n response,
       (n < 3)%nat
       /\ printer_back_soon n (build_print_request 1 "doc" 1 0) = Answered response
       /\ success response = true.
Proof.
  assert (H : result_of (print_document printer_back_soon "doc" 3 solitary) = true)
    by (vm_compute; reflexivity).
  split; [exact H|].
  exact (print_document_true_means_confirmed printer_back_soon "doc" 3 solitary H).
Defined.

Lemma keeps_print_document {T} (f : ClientNode -> T)
    (printer : nat -> PrintRequest -> attempt) (message_content : string) (max_retries : Z) :
  (forall self, f self = f (but_clock self)) ->
  keeps f (print_document printer message_content max_retries).
Proof.
  intros Hf self. rewrite Hf, (Hf self). f_equal. apply print_document_clock.
Qed.

(** X20: a print job that gets the resource always gives it back.
    Whenever [execute_print_job] returns, whatever the printer did,
    [has_access] is false again and the deferred-reply table and the
    outstanding set are empty. *)
Theorem execute_print_job_releases (sch : schedule)
    (printer : nat -> PrintRequest -> attempt)
    (reply_rpc : string -> AccessResponse -> option RpcError)
    (message_content : string) (self : ClientNode) :
  let out := execute_print_job sch printer reply_rpc message_content self in
  result_of out = true ->
  has_access (state_of out) = false
  /\ deferred_replies (state_of out) = Dict.empty
  /\ outstanding_replies (state_of out) = ∅.
Proof.
  intros out.
  pose (g := on_clock LamportClock.get_time self).
  pose (l := log_info ("Iniciando workflow de impressão: " +:+ message_content)
               (Some (result_of g)) (state_of g)).
  pose (R := request_print_access sch (state_of l)).
  pose (P := (success ← print_document printer message_content 3;
              now ← on_clock LamportClock.get_time;
              if (success : bool)
              then log_info "Job de impressão concluído com sucesso" (Some now)
              else log_error "Job de impressão falhou" (Some now)) : M ClientNode unit).
  pose (Q := (now ← on_clock LamportClock.get_time;
              log_error "Acesso não concedido - não é possível imprimir" (Some now))
             : M ClientNode unit).
  assert (Hres : result_of out = result_of R).
  { change (result_of out) with
      (result_of ((if result_of R then
                     (self ← get; (if has_access self then P else Q);;
                      release_access reply_rpc;; mret true)
                   else mret false) (state_of R))).
    destruct (result_of R); reflexivity. }
  assert (Hstate : result_of R = true ->
    state_of out =
    state_of (release_access reply_rpc
                (state_of ((if has_access (state_of R) then P else Q) (state_of R))))).
  { intros HR.
    change (state_of out) with
      (state_of ((if result_of R then
                    (self ← get; (if has_access self then P else Q);;
                     release_access reply_rpc;; mret true)
                  else mret false) (state_of R))).
    rewrite HR. reflexivity. }
  destruct (request_print_access_end sch (state_of l)) as (Hhold & _ & _).
  fold R in Hhold.
  rewrite Hres. intros HR. rewrite (Hstate HR). clear Hres Hstate.
  destruct (Hhold HR) as [Hacc _]. rewrite Hacc.
  assert (HP : keeps has_access P).
  { unfold P. apply keeps_bind.
    - apply keeps_print_document. intros []; reflexivity.
    - intros success.
      apply keeps_bind; [apply keeps_on_clock; intros ? []; reflexivity|intros now].
      destruct success; [unfold log_info|unfold log_error];
        (apply keeps_bind; [apply keeps_get|intros ?; apply keeps_emit]). }
  specialize (HP (state_of R)). rewrite Hacc in HP.
  clearbody R P Q. clear g l Hhold.
  destruct (release_access_holding reply_rpc (state_of (P (state_of R))) HP) as (Hrel & _).
  rewrite Hrel. destruct (state_of (P (state_of R))). repeat split.
Qed.

Lemma execute_print_job_releases_witness :
  result_of (execute_print_job alone printer_back_soon never_fails "doc" solitary) = true
  /\ has_access (state_of (execute_print_job alone printer_back_soon never_fails "doc"
                             solitary)) = false.
Proof.
  assert (H : result_of (execute_print_job alone printer_back_soon never_fails "doc"
                           solitary) = true) by (vm_compute; reflexivity).
  split; [exact H|].
  apply (execute_print_job_releases alone printer_back_soon never_fails "doc" solitary H).
Defined.

End PrintProperties.

(** ** The printer, call after call *)

Section MorePrinterProperties.

Import Printer Spec Inv.

(** [SendToPrinter] in one piece: what it returns, the servicer it
    leaves, what it does. *)
Lemma SendToPrinter_run (sv : PrintingServiceServicer) (job : PrintRequest) (u : Q) :
  let merged := Z.max (LamportClock._time (clock sv)) (pr_lamport_timestamp job) + 1 in
  let delay := uniform (print_delay_min sv) (print_delay_max sv) u in
  let job_line :=
    Out (Logger.Raw ("[TS: " +:+ pretty (pr_lamport_timestamp job) +:+ "] CLIENTE "
                     +:+ pretty (pr_client_id job) +:+ ": " +:+ pr_message_content job)) in
  let with_clock T :=
    {| logger := logger sv; print_delay_min := print_delay_min sv;
       print_delay_max := print_delay_max sv;
       clock := {| LamportClock._time := T |} |} in
  SendToPrinter job u sv =
  if Qltb delay 0 then (Raises "ValueError", with_clock merged, [job_line])
  else
    (Value (build_print_response true
              ("Documento do cliente " +:+ pretty (pr_client_id job) +:+ " impresso com sucesso")
              (merged + 1)),
     with_clock (merged + 1),
     [job_line; Sleep delay;
      Out (Logger.info (logger sv)
             ("Confirmação enviada para cliente " +:+ pretty (pr_client_id job))
             (Some (merged + 1)))]).
Proof.
  destruct sv as [lg lo hi [L]]. cbv zeta. unfold SendToPrinter.
  lazy beta iota zeta delta
    [mbind M_bind mret M_ret get emit on_clock result_of state_of effects_of fst snd
     logger print_delay_min print_delay_max clock
     LamportClock.receive_event LamportClock.tick].
  cbn [LamportClock._time app].
  destruct (Qltb (uniform lo hi u) 0);
    lazy beta iota zeta delta
      [mbind M_bind mret M_ret get emit on_clock result_of state_of effects_of fst snd
       logger print_delay_min print_delay_max clock
       LamportClock.receive_event LamportClock.tick];
    cbn [LamportClock._time app]; reflexivity.
Qed.

(** X21: the servicer does not check its delay bounds.  When the drawn
    delay is negative, [time.sleep] raises: the job line is already
    printed and the clock already merged with the job's timestamp, but no
    confirmation is written and no response is returned. *)
Theorem SendToPrinter_negative_delay_raises
    (sv : PrintingServiceServicer) (job : PrintRequest) (u : Q) :
  (uniform (print_delay_min sv) (print_delay_max sv) u < 0)%Q ->
  let out := SendToPrinter job u sv in
  result_of out = Raises "ValueError"
  /\ outputs (effects_of out) =
       [Logger.Raw ("[TS: " +:+ pretty (pr_lamport_timestamp job) +:+ "] CLIENTE "
                    +:+ pretty (pr_client_id job) +:+ ": " +:+ pr_message_content job)]
  /\ sleeps (effects_of out) = []
  /\ LamportClock._time (clock (state_of out)) =
       Z.max (LamportClock._time (clock sv)) (pr_lamport_timestamp job) + 1.
Proof.
  intros Hneg out. subst out. rewrite SendToPrinter_run. cbv zeta.
  assert (H : Qltb (uniform (print_delay_min sv) (print_delay_max sv) u) 0 = true).
  { unfold Qltb. apply negb_true_iff. apply not_true_is_false. intros Hle.
    apply Qle_bool_iff in Hle. apply Qle_not_lt in Hle. exact (Hle Hneg). }
  rewrite H. repeat split.
Qed.

Lemma SendToPrinter_negative_delay_raises_witness :
  (uniform (-2 # 1) (-1 # 1) (1 # 2) < 0)%Q
  /\ result_of (SendToPrinter (build_print_request 1 "doc" 5 1) (1 # 2)
                  (init (-2 # 1) (-1 # 1))) = Raises "ValueError".
Proof.
  assert (H : (uniform (-2 # 1) (-1 # 1) (1 # 2) < 0)%Q) by reflexivity.
  split; [exact H|].
  apply (SendToPrinter_negative_delay_raises (init (-2 # 1) (-1 # 1))
           (build_print_request 1 "doc" 5 1) (1 # 2) H).
Defined.

(** X22: on a printer with validated delay bounds, two jobs served one
    after the other both get a response, the second response is stamped
    later than the first and later than the second job, and the delay
    bounds are the same for both. *)
Theorem SendToPrinter_responses_increase
    (sv : PrintingServiceServicer) (job1 job2 : PrintRequest) (u1 u2 : Q) :
  (0 <= print_delay_min sv)%Q ->
  (print_delay_min sv <= print_delay_max sv)%Q ->
  (0 <= u1)%Q -> (u1 < 1)%Q -> (0 <= u2)%Q -> (u2 < 1)%Q ->
  let first := SendToPrinter job1 u1 sv in
  let second := SendToPrinter job2 u2 (state_of first) in
  exists response1 response2,
    result_of first = Value response1
    /\ result_of second = Value response2
    /\ presp_lamport_timestamp response1 < presp_lamport_timestamp response2
    /\ pr_lamport_timestamp job1 < presp_lamport_timestamp response1
    /\ pr_lamport_timestamp job2 < presp_lamport_timestamp response2
    /\ print_delay_min (state_of second) = print_delay_min sv
    /\ print_delay_max (state_of second) = print_delay_max sv.
Proof.
  intros Hmin Hord Hu1 Hu1' Hu2 Hu2' first second. subst second first.
  assert (Hdraw : forall u, (0 <= u)%Q -> (u < 1)%Q ->
            Qltb (uniform (print_delay_min sv) (print_delay_max sv) u) 0 = false).
  { intros u H0 H1. apply Qltb_false.
    destruct (uniform_between _ _ u Hord H0 H1) as [Hlo _].
    apply (Qle_trans _ (print_delay_min sv)); assumption. }
  rewrite (SendToPrinter_run sv job1 u1). cbv zeta. rewrite (Hdraw u1 Hu1 Hu1').
  change (state_of (?a, ?b, ?c)) with b. change (result_of (?a, ?b, ?c)) with a.
  rewrite SendToPrinter_run. cbv zeta.
  cbn [print_delay_min print_delay_max clock logger LamportClock._time].
  rewrite (Hdraw u2 Hu2 Hu2').
  change (state_of (?a, ?b, ?c)) with b. change (result_of (?a, ?b, ?c)) with a.
  eexists _, _. split; [reflexivity|]. split; [reflexivity|].
  cbn [presp_lamport_timestamp build_print_response print_delay_min print_delay_max].
  repeat split; lia.
Qed.

Lemma SendToPrinter_responses_increase_witness :
  exists response1 response2,
    result_of (SendToPrinter (build_print_request 1 "First" 5 1) (1 # 2) default)
      = Value response1
    /\ result_of (SendToPrinter (build_print_request 2 "Second" 20 1) (1 # 3)
                    (state_of (SendToPrinter (build_print_request 1 "First" 5 1) (1 # 2)
                                 default)))
       = Value response2
    /\ presp_lamport_timestamp response1 < presp_lamport_timestamp response2.
Proof.
  destruct (SendToPrinter_responses_increase default
              (build_print_request 1 "First" 5 1) (build_print_request 2 "Second" 20 1)
              (1 # 2) (1 # 3))
    as (response1 & response2 & H1 & H2 & Hlt & _).
  - vm_compute. discriminate.
  - vm_compute. discriminate.
  - vm_compute. discriminate.
  - reflexivity.
  - vm_compute. discriminate.
  - reflexivity.
  - exists response1, response2. repeat split; assumption.
Defined.

End MorePrinterProperties.

(** ** Reading the list of peers *)

Section ParseProperties.

Import Client Spec Inv.

Lemma string_app_cons (x : ascii) (a b : string) : String x a +:+ b = String x (a +:+ b).
Proof. reflexivity. Qed.

Lemma string_app_nil_l (b : string) : "" +:+ b = b.
Proof. reflexivity. Qed.

Lemma string_app_assoc (a b c : string) : (a +:+ b) +:+ c = a +:+ (b +:+ c).
Proof.
  induction a as [|x a IH]; [reflexivity|]. rewrite !string_app_cons, IH. reflexivity.
Qed.

Lemma string_app_nil_r (a : string) : a +:+ "" = a.
Proof.
  induction a as [|x a IH]; [reflexivity|]. rewrite string_app_cons, IH. reflexivity.
Qed.

Lemma rev_app_spec (s1 s2 : string) : String.rev_app s1 s2 = String.rev s1 +:+ s2.
Proof.
  revert s2. induction s1 as [|a s1 IH]; intros s2; [reflexivity|].
  change (String.rev_app s1 (String a s2) = String.rev_app s1 (String a "") +:+ s2).
  rewrite IH, (IH (String a "")), string_app_assoc. reflexivity.
Qed.

Lemma rev_cons (a : ascii) (s : string) : String.rev (String a s) = String.rev s +:+ String a "".
Proof. exact (rev_app_spec s (String a "")). Qed.

Lemma rev_app_distr (a b : string) : String.rev (a +:+ b) = String.rev b +:+ String.rev a.
Proof.
  induction a as [|x a IH].
  - rewrite string_app_nil_l. change (String.rev "") with "".
    rewrite string_app_nil_r. reflexivity.
  - rewrite string_app_cons, !rev_cons, IH, string_app_assoc. reflexivity.
Qed.

Lemma rev_involutive (s : string) : String.rev (String.rev s) = s.
Proof.
  induction s as [|a s IH]; [reflexivity|].
  rewrite rev_cons, rev_app_distr, IH. reflexivity.
Qed.

Lemma lstrip_starts_clean (s : string) : starts_clean (lstrip s).
Proof.
  induction s as [|c s IH]; simpl; [exact I|].
  destruct (is_whitespace c) eqn:Hc; [exact IH|exact Hc].
Qed.

Lemma lstrip_clean (s : string) : starts_clean s -> lstrip s = s.
Proof. destruct s as [|c s]; simpl; [reflexivity|]. intros ->. reflexivity. Qed.

Lemma lstrip_suffix (s : string) : exists w, s = w +:+ lstrip s.
Proof.
  induction s as [|c s [w IH]]; simpl; [exists ""; reflexivity|].
  destruct (is_whitespace c).
  - exists (String c w). rewrite string_app_cons, <- IH. reflexivity.
  - exists "". reflexivity.
Qed.

Lemma starts_clean_app (a b : string) :
  a <> "" -> starts_clean (a +:+ b) -> starts_clean a.
Proof.
  destruct a as [|c a]; [congruence|]. rewrite string_app_cons. intros _ H. exact H.
Qed.

Lemma strip_clean_ends (s : string) :
  starts_clean (strip s) /\ starts_clean (String.rev (strip s)).
Proof.
  unfold strip. rewrite rev_involutive.
  split; [|apply lstrip_starts_clean].
  pose proof (lstrip_starts_clean s) as Ht.
  destruct (lstrip_suffix (String.rev (lstrip s))) as [w Hw].
  destruct (lstrip (String.rev (lstrip s))) as [|c u] eqn:Hu; [exact I|].
  apply (f_equal String.rev) in Hw. rewrite rev_involutive, rev_app_distr in Hw.
  rewrite Hw in Ht. apply (starts_clean_app _ _) in Ht; [exact Ht|].
  rewrite rev_cons. destruct (String.rev u); discriminate.
Qed.

Lemma strip_fixed (s : string) : strip (strip s) = strip s.
Proof.
  destruct (strip_clean_ends s) as [Hfront Hback].
  unfold strip at 1. rewrite (lstrip_clean _ Hfront), (lstrip_clean _ Hback).
  apply rev_involutive.
Qed.

(** X23: the addresses that [parse_peer_addresses] returns are clean.
    None of them is empty, none begins or ends with white space
    (stripping one again changes nothing), and the empty argument gives
    the empty list. *)
Theorem parse_peer_addresses_clean (peers_str : string) (addr : string) :
  addr ∈ parse_peer_addresses peers_str ->
  addr <> ""
  /\ strip addr = addr
  /\ starts_clean addr
  /\ starts_clean (String.rev addr)
  /\ peers_str <> ""
  /\ parse_peer_addresses "" = [].
Proof.
  unfold parse_peer_addresses. case_bool_decide as Hempty.
  { intros H. apply elem_of_nil in H. destruct H. }
  intros Hin. apply list_elem_of_omap in Hin as (part & _ & Hpart).
  case_bool_decide as Hstrip; [discriminate|]. injection Hpart as <-.
  split; [exact Hstrip|]. split; [apply strip_fixed|].
  split; [apply strip_clean_ends|]. split; [apply strip_clean_ends|].
  split; [exact Hempty|reflexivity].
Qed.

Lemma parse_peer_addresses_clean_witness :
  "localhost:50054" ∈ parse_peer_addresses "  localhost:50053  ,  localhost:50054  "
  /\ strip "localhost:50054" = "localhost:50054".
Proof.
  assert (H : "localhost:50054"
              ∈ parse_peer_addresses "  localhost:50053  ,  localhost:50054  ").
  { vm_compute. apply elem_of_cons. right. apply elem_of_cons. left. reflexivity. }
  split; [exact H|].
  apply (parse_peer_addresses_clean "  localhost:50053  ,  localhost:50054  "
           "localhost:50054" H).
Defined.

End ParseProperties.

(** ** The request the decision compares with *)

Section QueueProperties.

Import Client Spec Inv Examples.








End QueueProperties.
